(** * PAC file syntax checker: [validate_pac_content] of pac_syntax_check.py

    A shallow embedding of the validation engine and the properties of
    its findings and verdict, then of the two entry points that call it,
    [check_pac_file] and [check_pac_text].

    Conventions.
    - A Python [str] is a [string]: the text as a sequence of 8-bit
      characters.  The embedding is exact on ASCII text.  The literals of
      the source that hold symbols outside ASCII (the banners and the
      bullet) are kept as their UTF-8 bytes; on input text the bytes above
      127 are neither white space nor letters, so Unicode white space and
      Unicode case mappings outside ASCII are not represented.
    - A Python [int] is a [Z]; [str(n)] is the decimal numeral.
    - The three lists [errors], [warnings], [info] that the function
      appends to are the fields of the record [Findings], threaded through
      the checks in program order.
    - The function returns either a bare string (blank input) or a pair
      (report, status): the two constructors of [result]. *)

From Stdlib Require Import ZArith NArith List Bool Ascii String Lia.
From Stdlib Require Import DecimalString DecimalPos DecimalZ.
Import ListNotations.

Local Open Scope string_scope.
Local Open Scope list_scope.

(* ================================================================= *)
(** ** Python string primitives used by the checker *)

Module PyStr.

(** [c.isspace()] on ASCII: tab, line feed, vertical tab, form feed,
    carriage return, the four separators 28..31 and the space. *)
Definition isspace (c : ascii) : bool :=
  let n := N_of_ascii c in
  (((9 <=? n) && (n <=? 13)) || ((28 <=? n) && (n <=? 32)))%N.

Definition is_lower (c : ascii) : bool :=
  let n := N_of_ascii c in ((97 <=? n) && (n <=? 122))%N.

Definition is_upper (c : ascii) : bool :=
  let n := N_of_ascii c in ((65 <=? n) && (n <=? 90))%N.

Definition upper_char (c : ascii) : ascii :=
  if is_lower c then ascii_of_N (N_of_ascii c - 32) else c.

Definition lower_char (c : ascii) : ascii :=
  if is_upper c then ascii_of_N (N_of_ascii c + 32) else c.

(** [s.upper()] *)
Fixpoint upper (s : string) : string :=
  match s with
  | EmptyString => EmptyString
  | String c s' => String (upper_char c) (upper s')
  end.

(** [s.lstrip()], [s.rstrip()], [s.strip()] *)
Fixpoint lstrip (s : string) : string :=
  match s with
  | EmptyString => EmptyString
  | String c s' => if isspace c then lstrip s' else s
  end.

Fixpoint rstrip (s : string) : string :=
  match s with
  | EmptyString => EmptyString
  | String c s' =>
      match rstrip s' with
      | EmptyString => if isspace c then EmptyString else String c EmptyString
      | r => String c r
      end
  end.

Definition strip (s : string) : string := rstrip (lstrip s).

(** Truth value of a string: non-empty. *)
Definition truthy (s : string) : bool :=
  match s with EmptyString => false | String _ _ => true end.

(** [s.startswith(p)] *)
Definition startswith (s p : string) : bool := String.prefix p s.

(** [sub in s] *)
Fixpoint contains (sub s : string) : bool :=
  String.prefix sub s
  || match s with
     | EmptyString => false
     | String _ s' => contains sub s'
     end.

(** [s.split(sep)] for a one-character separator: never the empty list. *)
Fixpoint split (sep : ascii) (s : string) : list string :=
  match s with
  | EmptyString => [EmptyString]
  | String c s' =>
      if Ascii.eqb c sep then EmptyString :: split sep s'
      else match split sep s' with
           | l :: ls => String c l :: ls
           | [] => [String c EmptyString]
           end
  end.

(** [sep.join(xs)] *)
Definition join (sep : string) (xs : list string) : string :=
  String.concat sep xs.

(** [str(n)] for an integer, as the f-strings of the source print it. *)
Definition str_int (n : Z) : string := NilZero.string_of_int (Z.to_int n).

(** [len(xs)] *)
Definition len {A} (xs : list A) : Z := Z.of_nat (List.length xs).

End PyStr.

(* ================================================================= *)
(** ** The fragment of [re] used by the checker

    The three patterns of the source are sequences of character classes,
    each matched once, or under a greedy star or plus.  [match_here] is
    the backtracking matcher for such a sequence at a fixed position: a
    greedy repetition takes as many characters as it can and gives them
    back one by one when the rest of the pattern fails.  A match is the
    list of the pieces of text taken by each element of the pattern. *)

Module Re.
Import PyStr.

Inductive charclass : Type :=
| Lit (c : ascii)              (* the character itself *)
| Space                        (* \s *)
| OneOf (cs : list ascii)      (* [...] *)
| NoneOf (cs : list ascii).    (* [^...] *)

Inductive item : Type :=
| One (k : charclass)
| Star (k : charclass)
| Plus (k : charclass).

Definition pattern := list item.

(** A run of literal characters. *)
Definition lits (s : string) : pattern :=
  map (fun c => One (Lit c)) (list_ascii_of_string s).

(** Character comparison, folded to lower case under re.IGNORECASE. *)
Definition same_char (ignorecase : bool) (a c : ascii) : bool :=
  if ignorecase then Ascii.eqb (lower_char a) (lower_char c)
  else Ascii.eqb a c.

Definition accepts (ignorecase : bool) (k : charclass) (a : ascii) : bool :=
  match k with
  | Lit c => same_char ignorecase a c
  | Space => isspace a
  | OneOf cs => existsb (same_char ignorecase a) cs
  | NoneOf cs => negb (existsb (same_char ignorecase a) cs)
  end.

(** What is left to match: pieces of the remaining elements and the
    unread text. *)
Definition outcome := option (list string * string).

(** The repetition read nothing more: its piece is empty. *)
Definition stop (r : outcome) : outcome :=
  match r with
  | Some (ps, rest) => Some (EmptyString :: ps, rest)
  | None => None
  end.

(** One more character [a] goes to the piece of the current element. *)
Definition take (a : ascii) (r : outcome) : outcome :=
  match r with
  | Some (p :: ps, rest) => Some (String a p :: ps, rest)
  | _ => None
  end.

(** Greedy star over the class test [ok], continuing with [k]. *)
Fixpoint star (ok : ascii -> bool) (k : string -> outcome) (s : string)
  : outcome :=
  match s with
  | String a s' =>
      if ok a then
        match take a (star ok k s') with
        | Some r => Some r
        | None => stop (k s)
        end
      else stop (k s)
  | EmptyString => stop (k s)
  end.

Fixpoint match_here (ignorecase : bool) (p : pattern) : string -> outcome :=
  match p with
  | [] => fun s => Some ([], s)
  | One k :: p' =>
      fun s =>
        match s with
        | String a s' =>
            if accepts ignorecase k a
            then take a (stop (match_here ignorecase p' s'))
            else None
        | EmptyString => None
        end
  | Star k :: p' => star (accepts ignorecase k) (match_here ignorecase p')
  | Plus k :: p' =>
      fun s =>
        match s with
        | String a s' =>
            if accepts ignorecase k a
            then take a (star (accepts ignorecase k)
                              (match_here ignorecase p') s')
            else None
        | EmptyString => None
        end
  end.

(** [re.search]: the match at the leftmost position that has one. *)
Fixpoint search (ignorecase : bool) (p : pattern) (s : string)
  : option (list string) :=
  match match_here ignorecase p s with
  | Some (ps, _) => Some ps
  | None =>
      match s with
      | String _ s' => search ignorecase p s'
      | EmptyString => None
      end
  end.

(** The whole text of a match, [m.group(0)]. *)
Definition group0 (m : list string) : string := String.concat "" m.

(** [re.findall] for a pattern without groups: the texts of the
    successive matches, left to right, without overlap.  [skip] counts
    the characters of the last match still to be stepped over.  (An
    empty match would resume one character further; the patterns of
    this program never match the empty text.) *)
Fixpoint findall_from (ignorecase : bool) (p : pattern) (skip : nat)
  (s : string) : list string :=
  match skip with
  | S n =>
      match s with
      | String _ s' => findall_from ignorecase p n s'
      | EmptyString => []
      end
  | O =>
      match match_here ignorecase p s with
      | Some (ps, _) =>
          let m := group0 ps in
          m :: match s with
               | String _ s' =>
                   findall_from ignorecase p (pred (String.length m)) s'
               | EmptyString => []
               end
      | None =>
          match s with
          | String _ s' => findall_from ignorecase p 0 s'
          | EmptyString => []
          end
      end
  end.

Definition findall (ignorecase : bool) (p : pattern) (s : string)
  : list string :=
  findall_from ignorecase p 0 s.

End Re.

(* ================================================================= *)
(** ** The validation engine *)

Import PyStr.

(** The double quote, the single quote and the line feed. *)
Definition dquote : ascii := "034"%char.
Definition squote : ascii := "'"%char.
Definition newline : ascii := "010"%char.

(** The three lists of the function body. *)
Record Findings : Type := mkFindings {
  errors : list string;
  warnings : list string;
  info : list string
}.

Definition no_findings : Findings := mkFindings [] [] [].

(** [errors.append(m)], [warnings.append(m)], [info.append(m)] *)
Definition add_error (m : string) (f : Findings) : Findings :=
  mkFindings (errors f ++ [m]) (warnings f) (info f).

Definition add_warning (m : string) (f : Findings) : Findings :=
  mkFindings (errors f) (warnings f ++ [m]) (info f).

Definition add_info (m : string) (f : Findings) : Findings :=
  mkFindings (errors f) (warnings f) (info f ++ [m]).

(** What the function returns: the bare advisory string on blank input,
    the pair (report, status) otherwise. *)
Inductive result : Type :=
| Advisory (text : string)
| Report (report : string) (status : string).

(** *** 1. The required FindProxyForURL function *)

(** function\s+FindProxyForURL\s*\(\s*url\s*,\s*host\s*\)\s*{ *)
Definition find_proxy_pattern : Re.pattern :=
  (Re.lits "function" ++ [Re.Plus Re.Space]
   ++ Re.lits "FindProxyForURL" ++ [Re.Star Re.Space]
   ++ [Re.One (Re.Lit "("); Re.Star Re.Space]
   ++ Re.lits "url" ++ [Re.Star Re.Space]
   ++ [Re.One (Re.Lit ","); Re.Star Re.Space]
   ++ Re.lits "host" ++ [Re.Star Re.Space]
   ++ [Re.One (Re.Lit ")"); Re.Star Re.Space]
   ++ [Re.One (Re.Lit "{")])%list.

Definition missing_function_msg : string :=
  "Missing required 'FindProxyForURL(url, host)' function".

Definition found_function_msg : string :=
  "✅ Found FindProxyForURL function".

Definition check_function (content : string) (f : Findings) : Findings :=
  match Re.search true find_proxy_pattern content with
  | None => add_error missing_function_msg f
  | Some _ => add_info found_function_msg f
  end.

(** *** 2. Bracket matching *)

(** The two counters of the scan and the findings so far. *)
Record Scan : Type := mkScan {
  brackets : Z;
  parentheses : Z;
  found : Findings
}.

Definition unmatched_brace_msg (i : Z) : string :=
  "Line " ++ str_int i ++ ": Unmatched closing brace".

Definition unmatched_paren_msg (i : Z) : string :=
  "Line " ++ str_int i ++ ": Unmatched closing parenthesis".

(** The body of the inner loop, for the character [char] of line [i]. *)
Definition scan_char (i : Z) (st : Scan) (char : ascii) : Scan :=
  if Ascii.eqb char "{" then
    mkScan (brackets st + 1) (parentheses st) (found st)
  else if Ascii.eqb char "}" then
    let b := (brackets st - 1)%Z in
    mkScan b (parentheses st)
      (if (b <? 0)%Z then add_error (unmatched_brace_msg i) (found st)
       else found st)
  else if Ascii.eqb char "(" then
    mkScan (brackets st) (parentheses st + 1) (found st)
  else if Ascii.eqb char ")" then
    let p := (parentheses st - 1)%Z in
    mkScan (brackets st) p
      (if (p <? 0)%Z then add_error (unmatched_paren_msg i) (found st)
       else found st)
  else st.

(** for char in line *)
Fixpoint scan_line (i : Z) (line : string) (st : Scan) : Scan :=
  match line with
  | EmptyString => st
  | String char rest => scan_line i rest (scan_char i st char)
  end.

(** for i, line in enumerate(lines, 1), from the line numbered [i] on *)
Fixpoint scan_lines (i : Z) (lines : list string) (st : Scan) : Scan :=
  match lines with
  | [] => st
  | line :: more => scan_lines (i + 1) more (scan_line i line st)
  end.

(** The state of the scan when both loops are over. *)
Definition scan (content : string) (f : Findings) : Scan :=
  scan_lines 1 (split newline content) (mkScan 0 0 f).

Definition missing_braces_msg (n : Z) : string :=
  "Missing " ++ str_int n ++ " closing brace(s)".

Definition extra_braces_msg : string := "Extra closing brace(s)".

Definition missing_parens_msg (n : Z) : string :=
  "Missing " ++ str_int n ++ " closing parenthesis".

Definition extra_parens_msg : string := "Extra closing parenthesis".

Definition brace_summary (b : Z) (f : Findings) : Findings :=
  if (b >? 0)%Z then add_error (missing_braces_msg b) f
  else if (b <? 0)%Z then add_error extra_braces_msg f
  else f.

Definition paren_summary (p : Z) (f : Findings) : Findings :=
  if (p >? 0)%Z then add_error (missing_parens_msg p) f
  else if (p <? 0)%Z then add_error extra_parens_msg f
  else f.

Definition check_brackets (content : string) (f : Findings) : Findings :=
  let st := scan content f in
  paren_summary (parentheses st) (brace_summary (brackets st) (found st)).

(** *** 3. Return statements *)

Definition quotes : list ascii := [dquote; squote].

(** return, white space, a quote, characters other than quotes, a quote *)
Definition return_pattern : Re.pattern :=
  (Re.lits "return"
   ++ [Re.Plus Re.Space; Re.One (Re.OneOf quotes);
       Re.Star (Re.NoneOf quotes); Re.One (Re.OneOf quotes)])%list.

(** A quote, a group of characters other than quotes, a quote.  The
    parenthesis of the source encloses the second element. *)
Definition value_pattern : Re.pattern :=
  [Re.One (Re.OneOf quotes); Re.Star (Re.NoneOf quotes);
   Re.One (Re.OneOf quotes)].

(** [value_match.group(1)] *)
Definition group1 (m : list string) : string := nth 1 m EmptyString.

Definition valid_prefixes : list string :=
  ["DIRECT"; "PROXY"; "SOCKS"; "HTTP"; "HTTPS"].

(** any(value.upper().startswith(prefix) for prefix in valid_prefixes) *)
Definition is_valid (value : string) : bool :=
  existsb (fun prefix => startswith (upper value) prefix) valid_prefixes.

Definition unusual_return_msg (value : string) : string :=
  "Unusual return value: '" ++ value ++ "'".

Definition valid_return_msg (value : string) : string :=
  "Valid return: '" ++ value ++ "'".

(** The body of the loop over [returns]. *)
Definition classify_return (f : Findings) (ret : string) : Findings :=
  match Re.search false value_pattern ret with
  | Some value_match =>
      let value := strip (group1 value_match) in
      if truthy value then
        if negb (is_valid value)
        then add_warning (unusual_return_msg value) f
        else add_info (valid_return_msg value) f
      else f
  | None => f
  end.

Definition found_returns_msg (n : Z) : string :=
  "Found " ++ str_int n ++ " return statement(s)".

Definition no_returns_msg : string := "No return statements found".

Definition check_returns (content : string) (f : Findings) : Findings :=
  let returns := Re.findall false return_pattern content in
  match returns with
  | _ :: _ =>
      fold_left classify_return returns
        (add_info (found_returns_msg (len returns)) f)
  | [] => add_warning no_returns_msg f
  end.

(** *** 4. Common PAC functions *)

Definition pac_functions : list string :=
  ["isPlainHostName"; "dnsDomainIs"; "localHostOrDomainIs";
   "isResolvable"; "isInNet"; "dnsResolve"; "myIpAddress";
   "dnsDomainLevels"; "shExpMatch"; "weekdayRange"; "dateRange";
   "timeRange"].

(** The loop that collects [found_functions]. *)
Definition collect_functions (content : string) : list string :=
  fold_left
    (fun found_functions func =>
       if contains func content then found_functions ++ [func]
       else found_functions)
    pac_functions [].

Definition pac_functions_msg (found_functions : list string) : string :=
  "PAC functions used: " ++ join ", " found_functions.

Definition check_pac_functions (content : string) (f : Findings) : Findings :=
  match collect_functions content with
  | [] => f
  | found_functions => add_info (pac_functions_msg found_functions) f
  end.

(** *** The report and the verdict *)

Definition bullet (item : string) : string := "  • " ++ item.

(** One section of the report: banner, items, blank line. *)
Definition section (banner : string) (items : list string)
  (report : list string) : list string :=
  match items with
  | [] => report
  | _ :: _ => (report ++ [banner]) ++ map bullet items ++ [EmptyString]
  end.

Definition generate_report (f : Findings) : string * string :=
  let report := section "🚨 ERRORS:" (errors f) [] in
  let report := section "⚠️ WARNINGS:" (warnings f) report in
  let report := section "ℹ️ INFO:" (info f) report in
  match errors f with
  | [] =>
      (join (String newline EmptyString)
         (report ++ ["✅ PAC file syntax appears valid!"]), "VALID")
  | _ :: _ =>
      (join (String newline EmptyString)
         (report ++ ["❌ PAC file has syntax errors"]), "INVALID")
  end.

(** The findings when all four checks have run. *)
Definition run_checks (content : string) : Findings :=
  check_pac_functions content
    (check_returns content
       (check_brackets content
          (check_function content no_findings))).

Definition empty_msg : string := "❌ Empty file or no content provided".

(** if not content or not content.strip() *)
Definition is_blank (content : string) : bool :=
  negb (truthy content) || negb (truthy (strip content)).

Definition validate_pac_content (content : string) : result :=
  if is_blank content then Advisory empty_msg
  else let (report, status) := generate_report (run_checks content) in
       Report report status.

(** The status of a result, when it has one, and its report text. *)
Definition status_of (r : result) : option string :=
  match r with
  | Advisory _ => None
  | Report _ status => Some status
  end.

Definition text_of (r : result) : string :=
  match r with
  | Advisory text => text
  | Report report _ => report
  end.

(* ================================================================= *)
(** ** Notions used to state the properties

    Balances, lines, occurrences and shapes are read off the text of a
    script, independently of the loops of the checker; the last
    definitions name parts of what the checker computes. *)

(** Every character of [s] passes the test [ok]. *)
Fixpoint every (ok : ascii -> bool) (s : string) : bool :=
  match s with
  | EmptyString => true
  | String a s' => ok a && every ok s'
  end.

(** Number of occurrences of the character [c] in [s]. *)
Fixpoint count_char (c : ascii) (s : string) : Z :=
  match s with
  | EmptyString => 0
  | String a s' => ((if Ascii.eqb a c then 1 else 0) + count_char c s')%Z
  end.

(** Opening minus closing braces (parentheses) of a text. *)
Definition brace_balance (s : string) : Z :=
  (count_char "{" s - count_char "}" s)%Z.

Definition paren_balance (s : string) : Z :=
  (count_char "(" s - count_char ")" s)%Z.

(** The 1-based number of the line that starts or continues after the
    text [pre]. *)
Definition line_after (pre : string) : Z := (1 + count_char newline pre)%Z.

(** The message owed to the character [c] that follows the text [pre]: a
    closing brace or parenthesis with no opening one left to close. *)
Definition closer_msg (pre : string) (c : ascii) : list string :=
  if Ascii.eqb c "}" && (brace_balance pre <=? 0)%Z
  then [unmatched_brace_msg (line_after pre)]
  else if Ascii.eqb c ")" && (paren_balance pre <=? 0)%Z
  then [unmatched_paren_msg (line_after pre)]
  else [].

(** The messages of all the characters of [s], read after [pre], in the
    order of the text. *)
Fixpoint closers (pre s : string) : list string :=
  match s with
  | EmptyString => []
  | String c s' => closer_msg pre c ++ closers (pre ++ String c EmptyString) s'
  end.

(** The summary errors owed to a final counter [n]. *)
Definition brace_errors (n : Z) : list string :=
  if (0 <? n)%Z then [missing_braces_msg n]
  else if (n <? 0)%Z then [extra_braces_msg]
  else [].

Definition paren_errors (n : Z) : list string :=
  if (0 <? n)%Z then [missing_parens_msg n]
  else if (n <? 0)%Z then [extra_parens_msg]
  else [].

(** The characters of a printed integer: the digits and the sign. *)
Definition numeral_char (c : ascii) : bool :=
  let n := N_of_ascii c in
  (((48 <=? n) && (n <=? 57)) || (n =? 45))%N.

(** The text consists of white space only (the empty text included). *)
Definition only_space (s : string) : bool := every isspace s.

(** A piece of text is what an element of a pattern can take. *)
Definition fits (ignorecase : bool) (it : Re.item) (w : string) : Prop :=
  match it with
  | Re.One k => exists a, w = String a EmptyString
                          /\ Re.accepts ignorecase k a = true
  | Re.Star k => every (Re.accepts ignorecase k) w = true
  | Re.Plus k => w <> EmptyString /\ every (Re.accepts ignorecase k) w = true
  end.

(** The pattern occurs in the text: some stretch of it splits into pieces
    that fit the elements of the pattern one by one. *)
Definition occurs (ignorecase : bool) (p : Re.pattern) (s : string) : Prop :=
  exists pre ws post,
    Forall2 (fits ignorecase) p ws /\ s = (pre ++ Re.group0 ws ++ post)%string.

(** [sub] is a stretch of [s]. *)
Definition substring_of (sub s : string) : Prop :=
  exists pre post, s = (pre ++ sub ++ post)%string.

(** Two characters equal up to the case of ASCII letters. *)
Definition same_letter (a b : ascii) : bool :=
  Ascii.eqb (upper_char a) (upper_char b).

(** [p] is a prefix of [v] up to the case of ASCII letters. *)
Fixpoint ci_prefix (p v : string) : bool :=
  match p, v with
  | EmptyString, _ => true
  | String a p', String b v' => same_letter a b && ci_prefix p' v'
  | String _ _, EmptyString => false
  end.

(** The value that the loop over [returns] classifies for the match
    [ret]: the trimmed text between the quotes. *)
Definition return_value (ret : string) : string :=
  match Re.search false value_pattern ret with
  | Some value_match => strip (group1 value_match)
  | None => EmptyString
  end.

(** The non-empty values of a list of matches, in order. *)
Definition classified (returns : list string) : list string :=
  filter truthy (map return_value returns).

(** The names of the reference list that occur in the text. *)
Definition present (content : string) : list string :=
  filter (fun func => contains func content) pac_functions.

Definition is_quote (a : ascii) : bool :=
  Ascii.eqb a dquote || Ascii.eqb a squote.

(** The text of a return statement: the word, white space, a quote, a
    body without quotes, a quote. *)
Definition return_text (w : string) (q1 : ascii) (body : string) (q2 : ascii)
  : string :=
  "return" ++ w ++ String q1 (body ++ String q2 EmptyString).

Definition not_quote (a : ascii) : bool := negb (is_quote a).

(** Two texts equal up to the case of ASCII letters. *)
Fixpoint same_text (s t : string) : bool :=
  match s, t with
  | EmptyString, EmptyString => true
  | String a s', String b t' => same_letter a b && same_text s' t'
  | _, _ => false
  end.

(** The text of a declaration: the keyword, the name and the two
    parameters in their places, with white space between the tokens. *)
Definition signature_text (kw w1 name w2 w3 p1 w4 w5 p2 w6 w7 : string)
  : string :=
  kw ++ w1 ++ name ++ w2 ++ "(" ++ w3 ++ p1 ++ w4 ++ "," ++ w5 ++ p2 ++ w6
  ++ ")" ++ w7 ++ "{".

(** The declaration function FindProxyForURL ( url , host ) { occurs in
    the text, up to the case of letters: at least one white space after
    the keyword, any white space between the other tokens. *)
Definition signature_occurs (content : string) : Prop :=
  exists pre kw w1 name w2 w3 p1 w4 w5 p2 w6 w7 post,
    content
    = (pre ++ signature_text kw w1 name w2 w3 p1 w4 w5 p2 w6 w7 ++ post)%string
    /\ same_text kw "function" = true
    /\ w1 <> "" /\ only_space w1 = true
    /\ same_text name "FindProxyForURL" = true
    /\ only_space w2 = true /\ only_space w3 = true
    /\ same_text p1 "url" = true
    /\ only_space w4 = true /\ only_space w5 = true
    /\ same_text p2 "host" = true
    /\ only_space w6 = true /\ only_space w7 = true.

(** A return statement occurs in the text: the word return, at least one
    white space, a quote of either kind, a body without quotes, a quote
    of either kind. *)
Definition return_occurs (content : string) : Prop :=
  exists pre w q1 body q2 post,
    content = (pre ++ return_text w q1 body q2 ++ post)%string
    /\ w <> "" /\ only_space w = true
    /\ is_quote q1 = true /\ every not_quote body = true
    /\ is_quote q2 = true.

(** The findings owed to each check, as lists. *)
Definition function_errors (content : string) : list string :=
  match Re.search true find_proxy_pattern content with
  | None => [missing_function_msg]
  | Some _ => []
  end.

Definition function_info (content : string) : list string :=
  match Re.search true find_proxy_pattern content with
  | None => []
  | Some _ => [found_function_msg]
  end.

Definition returns_warnings (returns : list string) : list string :=
  match returns with
  | [] => [no_returns_msg]
  | _ :: _ =>
      map unusual_return_msg
        (filter (fun v => negb (is_valid v)) (classified returns))
  end.

Definition returns_info (returns : list string) : list string :=
  match returns with
  | [] => []
  | _ :: _ =>
      found_returns_msg (len returns)
      :: map valid_return_msg (filter is_valid (classified returns))
  end.

Definition functions_info (content : string) : list string :=
  match present content with
  | [] => []
  | (_ :: _) as names => [pac_functions_msg names]
  end.

(** Messages of the scan, and the INFO of the function scan. *)
Definition line_msg (m : string) : bool := startswith m "Line ".

Definition pac_msg (m : string) : bool := startswith m "PAC functions used: ".

(** The findings of a call: none when the input is blank and no check
    runs. *)
Definition findings_of (content : string) : option Findings :=
  if is_blank content then None else Some (run_checks content).

(** Number of characters [c] of [s], read after [pre], that stand on line
    [line] with no opening character left to close, [balance] being the
    balance of the text before each of them. *)
Fixpoint offending (c : ascii) (balance : string -> Z) (line : Z)
  (pre s : string) : nat :=
  match s with
  | EmptyString => 0
  | String a s' =>
      (if Ascii.eqb a c && (balance pre <=? 0)%Z && (line_after pre =? line)%Z
       then 1 else 0)
      + offending c balance line (pre ++ String a EmptyString) s'
  end.

(** *** Sample scripts *)

Definition dq : string := String dquote EmptyString.
Definition nl : string := String newline EmptyString.

Definition sample_valid : string :=
  "function FindProxyForURL(url, host) { return " ++ dq ++ "DIRECT" ++ dq
  ++ "; }".

Definition sample_missing_brace : string :=
  "function FindProxyForURL(url, host) { return " ++ dq ++ "DIRECT" ++ dq
  ++ ";".

Definition sample_weird : string := dq ++ "weird output" ++ dq.

(** A valid PAC file that returns the string [body]; with a closing
    brace for [body] the braces of the program are still matched. *)
Definition sample_quoted (body : string) : string :=
  "function FindProxyForURL(url, host) { return " ++ dq ++ body ++ dq
  ++ "; }".

Definition sample_quoted_brace : string := sample_quoted "}".

(** Several lines; the brace that follows [sample_lines_head] on line 4
    and the parenthesis that opens line 5 have nothing to close. *)
Definition sample_lines_head : string :=
  "function  findproxyforurl ( URL ,host){" ++ nl
  ++ " if (isInNet(host)) return 'proxy a:80; DIRECT';" ++ nl
  ++ "  return  '  ' ; return" ++ nl
  ++ "'x' }".

Definition sample_lines_tail : string :=
  " return 'Socks5 a' dnsDomainIsisPlainHostName".

Definition sample_lines : string :=
  sample_lines_head ++ String "}" (nl ++ String ")" sample_lines_tail).

(** A return of an unusual value in an otherwise accepted script. *)
Definition sample_unusual : string :=
  "function FindProxyForURL(url, host) { return 'weird'; }".

(** Opening braces and parentheses that are never closed. *)
Definition sample_open : string :=
  "function FindProxyForURL(url, host) {{{ if ((( return 'DIRECT'; }".


(* ================================================================= *)
(** ** The two entry points: [check_pac_file] and [check_pac_text]

    Both call [validate_pac_content] and unpack its result into two
    names.  An exception is a value of [exn]; code that can raise returns
    in [exn + A], and the [try] of [check_pac_file] is a match on that
    sum.  What the interpreter and the operating system provide (reading
    a file as text, the base name of a path, the text of an exception) is
    a [Host]. *)

Inductive exn : Type :=
| TooManyValues              (* ValueError: more than two items to unpack *)
| NotEnoughValues (got : nat) (* ValueError: [got] items, fewer than two *)
| HostError (text : string).  (* open, read or decoding failure *)

Definition bind {A B} (c : exn + A) (k : A -> exn + B) : exn + B :=
  match c with
  | inl e => inl e
  | inr a => k a
  end.

Notation "x <- c ;; k" := (bind c (fun x => k))
  (at level 61, c at next level, right associativity).

Record Host : Type := mkHost {
  read_text : string -> exn + string;  (* open(name, 'r', encoding='utf-8'), f.read() *)
  basename : string -> string;         (* os.path.basename *)
  str_exn : exn -> string              (* str(e) *)
}.

(** The uploaded file object, of which the code reads [name]. *)
Record File : Type := mkFile { name : string }.

(** [result, status = r]: a pair gives its two components, a string of
    two characters gives the two characters, any other string raises. *)
Definition unpack2 (r : result) : exn + (string * string) :=
  match r with
  | Report report status => inr (report, status)
  | Advisory EmptyString => inl (NotEnoughValues 0)
  | Advisory (String a EmptyString) => inl (NotEnoughValues 1)
  | Advisory (String a (String b EmptyString)) =>
      inr (String a EmptyString, String b EmptyString)
  | Advisory (String _ (String _ (String _ _))) => inl TooManyValues
  end.

(** [s * n] *)
Fixpoint repeat_str (s : string) (n : nat) : string :=
  match n with
  | O => EmptyString
  | S n' => s ++ repeat_str s n'
  end.

(** [len(s)] for a string *)
Definition len_str (s : string) : Z := Z.of_nat (String.length s).

(** [s.split()]: the words between runs of white space. *)
Fixpoint split_ws (s : string) : list string :=
  match s with
  | EmptyString => []
  | String c s' =>
      if isspace c then split_ws s'
      else
        match s' with
        | EmptyString => [String c EmptyString]
        | String d _ =>
            if isspace d then String c EmptyString :: split_ws s'
            else match split_ws s' with
                 | w :: ws => String c w :: ws
                 | [] => [String c EmptyString]
                 end
        end
  end.

(** The rule under both banners. *)
Definition rule : string := repeat_str "=" 50 ++ nl ++ nl.

Definition file_info (h : Host) (file : File) (file_size line_count : Z)
  : string :=
  ("📁 File: " ++ basename h (name file) ++ nl)
  ++ ("📊 Size: " ++ str_int file_size ++ " characters, "
      ++ str_int line_count ++ " lines" ++ nl)
  ++ rule.

Definition read_error_msg (h : Host) (e : exn) : string :=
  "❌ Error reading file: " ++ str_exn h e.

(** The body of the [try]. *)
Definition check_pac_file_body (h : Host) (file : File)
  : exn + (string * string) :=
  content <- read_text h (name file) ;;
  let file_size := len_str content in
  let line_count := len (split newline content) in
  rs <- unpack2 (validate_pac_content content) ;;
  let (result, status) := rs in
  inr ((file_info h file file_size line_count ++ result)%string, status).

Definition check_pac_file (h : Host) (file : option File) : string * string :=
  match file with
  | None => ("Please upload a PAC file", "NO FILE")
  | Some file =>
      match check_pac_file_body h file with
      | inr r => r
      | inl e => (read_error_msg h e, "ERROR")
      end
  end.

Definition content_info (text : string) : string :=
  ("📊 Content: " ++ str_int (len_str text) ++ " characters, "
   ++ str_int (len (split_ws text)) ++ " lines" ++ nl)
  ++ rule.

Definition check_pac_text (text : string) : exn + (string * string) :=
  if negb (truthy text) || negb (truthy (strip text))
  then inr ("Please enter PAC file content", "NO CONTENT")
  else
    rs <- unpack2 (validate_pac_content text) ;;
    let (result, status) := rs in
    inr ((content_info text ++ result)%string, status).

(** *** Notions used to state their properties *)

(** The lines of the report, before they are joined. *)
Definition report_section (banner : string) (items : list string)
  : list string :=
  match items with
  | [] => []
  | _ :: _ => banner :: map bullet items ++ [EmptyString]
  end.

Definition verdict_banner (f : Findings) : string :=
  match errors f with
  | [] => "✅ PAC file syntax appears valid!"
  | _ :: _ => "❌ PAC file has syntax errors"
  end.

Definition report_lines (f : Findings) : list string :=
  report_section "🚨 ERRORS:" (errors f)
  ++ report_section "⚠️ WARNINGS:" (warnings f)
  ++ report_section "ℹ️ INFO:" (info f)
  ++ [verdict_banner f].

(** Number of words of a text: the characters other than white space
    that start the text or follow a white space. *)
Fixpoint word_starts (after_space : bool) (s : string) : nat :=
  match s with
  | EmptyString => 0
  | String c s' =>
      (if negb (isspace c) && after_space then 1 else 0)
      + word_starts (isspace c) s'
  end.

Definition word_count (s : string) : nat := word_starts true s.

(** [s] ends with [t]. *)
Definition ends_with (s t : string) : Prop :=
  exists pre, s = (pre ++ t)%string.

(** The characters that the bracket check looks at. *)
Definition bracket_char (c : ascii) : bool :=
  Ascii.eqb c "{" || Ascii.eqb c "}" || Ascii.eqb c "(" || Ascii.eqb c ")"
  || Ascii.eqb c newline.

(** The text without its other characters. *)
Fixpoint skeleton (s : string) : string :=
  match s with
  | EmptyString => EmptyString
  | String c s' => if bracket_char c then String c (skeleton s') else skeleton s'
  end.

(** The message [m] is one of the scan, for line [i]. *)
Definition scan_msg (m : string) (i : Z) : Prop :=
  m = unmatched_brace_msg i \/ m = unmatched_paren_msg i.

(** A host for the examples: one file of each kind, the base name after
    the last slash left aside, the text of an exception. *)
Definition sample_host : Host :=
  mkHost
    (fun path =>
       if String.eqb path "good.pac" then inr sample_valid
       else if String.eqb path "blank.pac" then inr ("  " ++ nl)%string
       else inl (HostError "No such file"))
    (fun path => path)
    (fun e =>
       match e with
       | TooManyValues => "too many values to unpack (expected 2)"
       | NotEnoughValues _ => "not enough values to unpack"
       | HostError text => text
       end).

(** A script whose braces and parentheses cross: each kind is matched
    on its own. *)
Definition sample_crossed : string :=
  "function FindProxyForURL(url, host) { ( } )".

(* ================================================================= *)
(** ** Facts about strings *)

Lemma append_nil_r (s : string) : (s ++ "")%string = s.
Proof. induction s as [|a s IH]; simpl; [reflexivity | now rewrite IH]. Qed.

Lemma append_assoc (s t u : string) :
  ((s ++ t) ++ u)%string = (s ++ (t ++ u))%string.
Proof. induction s as [|a s IH]; simpl; [reflexivity | now rewrite IH]. Qed.

Lemma append_cons_shift (s : string) (a : ascii) (t : string) :
  ((s ++ String a "") ++ t)%string = (s ++ String a t)%string.
Proof. now rewrite append_assoc. Qed.

Lemma every_append (ok : ascii -> bool) (s t : string) :
  every ok (s ++ t) = every ok s && every ok t.
Proof.
  induction s as [|a s IH]; simpl; [reflexivity|].
  now rewrite IH, andb_assoc.
Qed.

Lemma count_char_append (c : ascii) (s t : string) :
  count_char c (s ++ t) = (count_char c s + count_char c t)%Z.
Proof. induction s as [|a s IH]; simpl; [reflexivity | rewrite IH; lia]. Qed.

Lemma count_char_absent (ok : ascii -> bool) (c : ascii) (s : string) :
  ok c = false -> every ok s = true -> count_char c s = 0%Z.
Proof.
  intros Hc. induction s as [|a s IH]; simpl; [reflexivity|].
  intros H. apply andb_true_iff in H as [Ha Hs].
  destruct (Ascii.eqb_spec a c) as [->|_]; [congruence|].
  now rewrite IH.
Qed.

(** Two texts made of a run of accepted characters, a character that is
    not accepted and a tail are equal only piece by piece. *)
Lemma run_then_stop (ok : ascii -> bool) (a b : string) (c d : ascii)
  (r t : string) :
  every ok a = true -> every ok b = true -> ok c = false -> ok d = false ->
  (a ++ String c r)%string = (b ++ String d t)%string ->
  a = b /\ c = d /\ r = t.
Proof.
  revert b. induction a as [|x a IH]; intros [|y b]; simpl;
    intros Ha Hb Hc Hd E.
  - injection E as -> ->. auto.
  - injection E as -> _. apply andb_true_iff in Hb as [Hy _]. congruence.
  - injection E as -> _. apply andb_true_iff in Ha as [Hx _]. congruence.
  - injection E as -> E.
    apply andb_true_iff in Ha as [_ Ha]. apply andb_true_iff in Hb as [_ Hb].
    destruct (IH b Ha Hb Hc Hd E) as (-> & -> & ->). auto.
Qed.

Lemma group0_cons (w : string) (ws : list string) :
  Re.group0 (w :: ws) = (w ++ Re.group0 ws)%string.
Proof.
  unfold Re.group0. destruct ws as [|v ws]; simpl.
  - now rewrite append_nil_r.
  - reflexivity.
Qed.

Lemma split_cons (sep : ascii) (s : string) :
  exists l ls, split sep s = l :: ls.
Proof.
  induction s as [|c s (l & ls & IH)]; simpl.
  - now exists "", [].
  - destruct (Ascii.eqb c sep); [now eexists _, _|].
    rewrite IH. now eexists _, _.
Qed.

(** *** Blank input *)

Lemma every_lstrip (s : string) : every isspace (lstrip s) = every isspace s.
Proof.
  induction s as [|a s IH]; simpl; [reflexivity|].
  destruct (isspace a) eqn:Ha; simpl; [exact IH | now rewrite Ha].
Qed.

Lemma rstrip_empty (s : string) :
  rstrip s = "" <-> every isspace s = true.
Proof.
  induction s as [|a s IH]; simpl; [tauto|].
  destruct (rstrip s) eqn:R.
  - destruct (isspace a); simpl; [tauto|]. split; discriminate.
  - split; [discriminate|]. intros H. apply andb_true_iff in H as [_ H].
    apply IH in H. discriminate.
Qed.

Lemma is_blank_only_space (content : string) :
  is_blank content = only_space content.
Proof.
  unfold is_blank, only_space, strip.
  destruct content as [|a s]; [reflexivity|].
  cbn [truthy negb orb].
  destruct (every isspace (String a s)) eqn:E.
  - rewrite <- every_lstrip in E. apply rstrip_empty in E. now rewrite E.
  - destruct (rstrip (lstrip (String a s))) eqn:R; [|reflexivity].
    apply rstrip_empty in R. rewrite every_lstrip in R. congruence.
Qed.


(** *** Printed integers *)

Lemma numeral_uint (d : Decimal.uint) :
  every numeral_char (NilEmpty.string_of_uint d) = true.
Proof. induction d; simpl; auto. Qed.

Lemma numeral_str_int (n : Z) : every numeral_char (str_int n) = true.
Proof.
  unfold str_int. destruct (Z.to_int n) as [d|d]; simpl.
  - destruct d; simpl; auto using numeral_uint.
  - destruct d; simpl; auto using numeral_uint.
Qed.

Lemma to_int_not_nil (n : Z) :
  Z.to_int n <> Decimal.Pos Decimal.Nil /\ Z.to_int n <> Decimal.Neg Decimal.Nil.
Proof.
  destruct n as [|p|p]; simpl; split; try discriminate;
    intros [= H]; exact (DecimalPos.Unsigned.to_uint_nonnil p H).
Qed.

Lemma str_int_inj (n m : Z) : str_int n = str_int m -> n = m.
Proof.
  unfold str_int. intros E.
  apply DecimalZ.to_int_inj.
  destruct (to_int_not_nil n) as [Hn1 Hn2], (to_int_not_nil m) as [Hm1 Hm2].
  pose proof (NilZero.isi _ Hn1 Hn2) as In.
  pose proof (NilZero.isi _ Hm1 Hm2) as Im.
  rewrite E in In. congruence.
Qed.

(** A printed integer between two pieces of text that do not start like a
    numeral: equal texts have equal integers and equal tails. *)
Lemma numeral_then_tail (n m : Z) (c d : ascii) (r t : string) :
  numeral_char c = false -> numeral_char d = false ->
  (str_int n ++ String c r)%string = (str_int m ++ String d t)%string ->
  n = m /\ String c r = String d t.
Proof.
  intros Hc Hd E.
  destruct (run_then_stop numeral_char _ _ _ _ _ _
              (numeral_str_int n) (numeral_str_int m) Hc Hd E) as (E1 & -> & ->).
  split; [now apply str_int_inj | reflexivity].
Qed.


(* ================================================================= *)
(** ** The scan of braces and parentheses *)

Lemma line_after_newline (pre : string) :
  line_after (pre ++ String newline "") = (line_after pre + 1)%Z.
Proof.
  unfold line_after. rewrite count_char_append.
  change (count_char newline (String newline "")) with 1%Z. lia.
Qed.

Lemma line_after_other (pre : string) (c : ascii) :
  c <> newline -> line_after (pre ++ String c "") = line_after pre.
Proof.
  intros H. unfold line_after. rewrite count_char_append.
  cbn [count_char].
  destruct (Ascii.eqb_spec c newline); [contradiction | lia].
Qed.

(** One step of the inner loop against the text read so far. *)
Lemma scan_char_spec (pre : string) (c : ascii) (st : Scan) :
  brackets st = brace_balance pre ->
  parentheses st = paren_balance pre ->
  let st' := scan_char (line_after pre) st c in
  brackets st' = brace_balance (pre ++ String c "")
  /\ parentheses st' = paren_balance (pre ++ String c "")
  /\ errors (found st') = errors (found st) ++ closer_msg pre c
  /\ warnings (found st') = warnings (found st)
  /\ info (found st') = info (found st).
Proof.
  intros Hb Hp. unfold scan_char, closer_msg.
  rewrite <- Hb, <- Hp. unfold brace_balance, paren_balance in *.
  rewrite !count_char_append. cbn [count_char].
  destruct (Ascii.eqb_spec c "{") as [->|N1];
    [cbn; rewrite app_nil_r; repeat split; lia|].
  destruct (Ascii.eqb_spec c "}") as [->|N2].
  { cbn -[Z.add Z.sub Z.ltb Z.leb].
    replace (brackets st - 1 <? 0)%Z with (brackets st <=? 0)%Z
      by (destruct (Z.leb_spec (brackets st) 0), (Z.ltb_spec (brackets st - 1) 0);
          reflexivity || lia).
    destruct (brackets st <=? 0)%Z; cbn -[Z.add Z.sub];
      rewrite ?app_nil_r; repeat split; lia. }
  destruct (Ascii.eqb_spec c "(") as [->|N3];
    [cbn; rewrite app_nil_r; repeat split; lia|].
  destruct (Ascii.eqb_spec c ")") as [->|N4].
  { cbn -[Z.add Z.sub Z.ltb Z.leb].
    replace (parentheses st - 1 <? 0)%Z with (parentheses st <=? 0)%Z
      by (destruct (Z.leb_spec (parentheses st) 0),
                   (Z.ltb_spec (parentheses st - 1) 0); reflexivity || lia).
    destruct (parentheses st <=? 0)%Z; cbn -[Z.add Z.sub];
      rewrite ?app_nil_r; repeat split; lia. }
  destruct (Ascii.eqb_spec "{" c) as [E|_]; [congruence|].
  destruct (Ascii.eqb_spec "}" c) as [E|_]; [congruence|].
  destruct (Ascii.eqb_spec "(" c) as [E|_]; [congruence|].
  destruct (Ascii.eqb_spec ")" c) as [E|_]; [congruence|].
  cbn. rewrite app_nil_r. repeat split; lia.
Qed.

(** The two loops against the text: the counters are the balances of the
    whole text, the errors added are those of its closers, in order. *)
Lemma scan_lines_spec (s pre : string) (st : Scan) :
  brackets st = brace_balance pre ->
  parentheses st = paren_balance pre ->
  let st' := scan_lines (line_after pre) (split newline s) st in
  brackets st' = brace_balance (pre ++ s)
  /\ parentheses st' = paren_balance (pre ++ s)
  /\ errors (found st') = errors (found st) ++ closers pre s
  /\ warnings (found st') = warnings (found st)
  /\ info (found st') = info (found st).
Proof.
  revert pre st. induction s as [|c s IH]; intros pre st Hb Hp.
  - cbn. rewrite append_nil_r, app_nil_r. auto.
  - cbn [split closers].
    destruct (Ascii.eqb_spec c newline) as [->|Hc].
    + cbn [scan_lines scan_line].
      rewrite <- line_after_newline, <- (append_cons_shift pre newline s).
      replace (closer_msg pre newline) with (@nil string) by reflexivity.
      cbn [app]. apply IH.
      * rewrite Hb. unfold brace_balance. rewrite !count_char_append.
        cbn. lia.
      * rewrite Hp. unfold paren_balance. rewrite !count_char_append.
        cbn. lia.
    + destruct (scan_char_spec pre c st Hb Hp) as (Hb' & Hp' & He & Hw & Hi).
      specialize (IH (pre ++ String c "")%string
                     (scan_char (line_after pre) st c) Hb' Hp').
      rewrite line_after_other in IH by assumption.
      destruct (split_cons newline s) as (l & ls & E). rewrite E in *.
      cbn [scan_lines scan_line] in *.
      rewrite (append_cons_shift pre c s) in IH.
      destruct IH as (B & P & Er & W & I).
      rewrite B, P, Er, W, I, He, Hw, Hi, app_assoc. auto.
Qed.

Lemma scan_spec (content : string) (f : Findings) :
  brackets (scan content f) = brace_balance content
  /\ parentheses (scan content f) = paren_balance content
  /\ errors (found (scan content f)) = errors f ++ closers "" content
  /\ warnings (found (scan content f)) = warnings f
  /\ info (found (scan content f)) = info f.
Proof. exact (scan_lines_spec content "" (mkScan 0 0 f) eq_refl eq_refl). Qed.

Lemma brace_summary_spec (b : Z) (f : Findings) :
  brace_summary b f = mkFindings (errors f ++ brace_errors b) (warnings f) (info f).
Proof.
  unfold brace_summary, brace_errors, add_error.
  rewrite Z.gtb_ltb.
  destruct (0 <? b)%Z; [reflexivity|].
  destruct (b <? 0)%Z; [reflexivity|].
  rewrite app_nil_r. now destruct f.
Qed.

Lemma paren_summary_spec (p : Z) (f : Findings) :
  paren_summary p f = mkFindings (errors f ++ paren_errors p) (warnings f) (info f).
Proof.
  unfold paren_summary, paren_errors, add_error.
  rewrite Z.gtb_ltb.
  destruct (0 <? p)%Z; [reflexivity|].
  destruct (p <? 0)%Z; [reflexivity|].
  rewrite app_nil_r. now destruct f.
Qed.

Lemma check_brackets_spec (content : string) (f : Findings) :
  check_brackets content f =
  mkFindings
    (errors f ++ closers "" content
     ++ brace_errors (brace_balance content)
     ++ paren_errors (paren_balance content))
    (warnings f) (info f).
Proof.
  unfold check_brackets.
  destruct (scan_spec content f) as (B & P & E & W & I).
  rewrite paren_summary_spec, brace_summary_spec. cbn [errors warnings info].
  rewrite B, P, E, W, I, <- !app_assoc. reflexivity.
Qed.


(* ================================================================= *)
(** ** The findings of each check *)

Lemma check_function_spec (content : string) (f : Findings) :
  check_function content f =
  match Re.search true find_proxy_pattern content with
  | None => mkFindings (errors f ++ [missing_function_msg]) (warnings f) (info f)
  | Some _ => mkFindings (errors f) (warnings f) (info f ++ [found_function_msg])
  end.
Proof. unfold check_function. now destruct Re.search. Qed.

Lemma classified_cons (ret : string) (rs : list string) :
  classified (ret :: rs) =
  if truthy (return_value ret) then return_value ret :: classified rs
  else classified rs.
Proof. reflexivity. Qed.

(** The loop over the matches leaves the errors alone and appends, in the
    order of the matches, a warning for each unusual value and an INFO
    for each valid one. *)
Lemma classify_loop_spec (rs : list string) (f : Findings) :
  fold_left classify_return rs f =
  mkFindings
    (errors f)
    (warnings f
     ++ map unusual_return_msg
          (filter (fun v => negb (is_valid v)) (classified rs)))
    (info f ++ map valid_return_msg (filter is_valid (classified rs))).
Proof.
  revert f. induction rs as [|ret rs IH]; intros f.
  - cbn. rewrite !app_nil_r. now destruct f.
  - cbn [fold_left]. rewrite IH, classified_cons.
    unfold classify_return, return_value.
    destruct (Re.search false value_pattern ret) as [m|]; [|reflexivity].
    destruct (truthy (strip (group1 m))); [|reflexivity].
    cbn [filter]. destruct (is_valid (strip (group1 m)));
      cbn [negb map add_info add_warning errors warnings info];
      rewrite <- ?app_assoc; reflexivity.
Qed.

Lemma check_returns_spec (content : string) (f : Findings) :
  check_returns content f =
  match Re.findall false return_pattern content with
  | [] => mkFindings (errors f) (warnings f ++ [no_returns_msg]) (info f)
  | (_ :: _) as returns =>
      mkFindings
        (errors f)
        (warnings f
         ++ map unusual_return_msg
              (filter (fun v => negb (is_valid v)) (classified returns)))
        (info f
         ++ found_returns_msg (len returns)
         :: map valid_return_msg (filter is_valid (classified returns)))
  end.
Proof.
  unfold check_returns.
  destruct (Re.findall false return_pattern content) as [|r rs]; [reflexivity|].
  rewrite classify_loop_spec. cbn [add_info errors warnings info].
  now rewrite <- app_assoc.
Qed.

Lemma collect_loop {A} (keep : A -> bool) (xs acc : list A) :
  fold_left (fun acc x => if keep x then acc ++ [x] else acc) xs acc
  = acc ++ filter keep xs.
Proof.
  revert acc. induction xs as [|x xs IH]; intros acc; cbn.
  - now rewrite app_nil_r.
  - rewrite IH. destruct (keep x); [now rewrite <- app_assoc | reflexivity].
Qed.

(** The names collected are those of the reference list that occur in the
    text, in the order of the list. *)
Lemma collect_functions_present (content : string) :
  collect_functions content = present content.
Proof. unfold collect_functions, present. now rewrite collect_loop. Qed.

Lemma check_pac_functions_spec (content : string) (f : Findings) :
  check_pac_functions content f =
  match present content with
  | [] => f
  | (_ :: _) as names =>
      mkFindings (errors f) (warnings f) (info f ++ [pac_functions_msg names])
  end.
Proof.
  unfold check_pac_functions. rewrite collect_functions_present.
  now destruct (present content).
Qed.

(** The errors when all the checks have run. *)

Lemma errors_run_checks (content : string) :
  errors (run_checks content) =
  function_errors content
  ++ closers "" content
  ++ brace_errors (brace_balance content)
  ++ paren_errors (paren_balance content).
Proof.
  unfold run_checks, function_errors.
  rewrite check_pac_functions_spec, check_returns_spec, check_brackets_spec,
    check_function_spec.
  destruct (present content), (Re.findall false return_pattern content),
    (Re.search true find_proxy_pattern content); reflexivity.
Qed.


(* ================================================================= *)
(** ** The matcher finds exactly the occurrences of a pattern *)

Section Matcher.
Variable ignorecase : bool.

Section Repetition.
Variable ok : ascii -> bool.
Variable k : string -> Re.outcome.

(** A successful star took a run of accepted characters and left
    the rest to the continuation. *)
Lemma stop_sound (t : string) (ps : list string) (rest : string) :
  Re.stop (k t) = Some (ps, rest) ->
  exists w ws s2,
    ps = w :: ws /\ t = (w ++ s2)%string /\ every ok w = true
    /\ k s2 = Some (ws, rest).
Proof.
  unfold Re.stop. destruct (k t) as [[ws r]|] eqn:K; [|discriminate].
  intros [= <- <-]. now exists "", ws, t.
Qed.

Lemma star_sound (s : string) :
  forall ps rest,
    Re.star ok k s = Some (ps, rest) ->
    exists w ws s2,
      ps = w :: ws /\ s = (w ++ s2)%string /\ every ok w = true
      /\ k s2 = Some (ws, rest).
Proof.
  induction s as [|a s IH]; intros ps rest H.
  - now apply stop_sound.
  - cbn [Re.star] in H. destruct (ok a) eqn:Ha; [|now apply stop_sound].
    destruct (Re.star ok k s) as [[qs r]|] eqn:St;
      [|now apply stop_sound].
    destruct (IH _ _ eq_refl) as (w & ws & s2 & -> & -> & Hw & K).
    cbn in H. injection H as <- <-.
    exists (String a w), ws, s2. cbn. rewrite Ha, Hw. auto.
Qed.

(** A star succeeds on any run of accepted characters after which
    the continuation succeeds. *)
Lemma star_complete (w s2 : string) :
  every ok w = true -> k s2 <> None -> Re.star ok k (w ++ s2) <> None.
Proof.
  intros Hw Hk. induction w as [|a w IH]; cbn [append].
  - assert (Re.stop (k s2) <> None)
      by (unfold Re.stop; destruct (k s2) as [[? ?]|]; congruence).
    destruct s2 as [|b s2]; cbn [Re.star]; [assumption|].
    destruct (ok b); [|assumption].
    now destruct (Re.take b (Re.star ok k s2)).
  - cbn in Hw. apply andb_true_iff in Hw as [Ha Hw].
    cbn [Re.star]. rewrite Ha.
    destruct (Re.star ok k (w ++ s2)) as [[ps r]|] eqn:St;
      [|now elim (IH Hw)].
    destruct (star_sound _ _ _ St) as (w' & ws & ? & -> & _).
    cbn. discriminate.
Qed.

(** When the run is followed by a character that is not accepted, the
    greedy star takes exactly the run. *)
Lemma star_greedy (w : string) (b : ascii) (t : string)
  (ws : list string) (rest : string) :
  every ok w = true -> ok b = false ->
  k (String b t) = Some (ws, rest) ->
  Re.star ok k (w ++ String b t) = Some (w :: ws, rest).
Proof.
  intros Hw Hb Hk. induction w as [|a w IH]; cbn [append Re.star].
  - now rewrite Hb, Hk.
  - cbn in Hw. apply andb_true_iff in Hw as [Ha Hw].
    now rewrite Ha, (IH Hw).
Qed.

End Repetition.

Lemma match_here_sound (p : Re.pattern) :
  forall s ws rest,
    Re.match_here ignorecase p s = Some (ws, rest) ->
    Forall2 (fits ignorecase) p ws /\ s = (Re.group0 ws ++ rest)%string.
Proof.
  induction p as [|[k|k|k] p IH]; intros s ws rest H.
  - injection H as <- <-. split; [constructor | reflexivity].
  - cbn [Re.match_here] in H. destruct s as [|a s]; [discriminate|].
    destruct (Re.accepts ignorecase k a) eqn:A; [|discriminate].
    destruct (Re.match_here ignorecase p s) as [[ws' r]|] eqn:M;
      [|discriminate].
    injection H as <- <-. destruct (IH _ _ _ M) as [F ->].
    split; [constructor; [now exists a | assumption]|].
    now rewrite group0_cons.
  - cbn [Re.match_here] in H.
    destruct (star_sound _ _ _ _ _ H) as (w & ws' & s2 & -> & -> & Hw & K).
    destruct (IH _ _ _ K) as [F ->].
    split; [constructor; assumption|].
    now rewrite group0_cons, append_assoc.
  - cbn [Re.match_here] in H. destruct s as [|a s]; [discriminate|].
    destruct (Re.accepts ignorecase k a) eqn:A; [|discriminate].
    destruct (Re.star (Re.accepts ignorecase k) (Re.match_here ignorecase p) s)
      as [[ps r]|] eqn:St; [|discriminate].
    destruct (star_sound _ _ _ _ _ St) as (w & ws' & s2 & -> & -> & Hw & K).
    injection H as <- <-. destruct (IH _ _ _ K) as [F ->].
    split.
    + constructor; [|assumption]. split; [discriminate|]. cbn. now rewrite A.
    + now rewrite group0_cons, append_assoc.
Qed.

Lemma match_here_complete (p : Re.pattern) (ws : list string) :
  Forall2 (fits ignorecase) p ws ->
  forall rest, Re.match_here ignorecase p (Re.group0 ws ++ rest) <> None.
Proof.
  induction 1 as [|it w p ws Hw F IH]; intros rest; [discriminate|].
  rewrite group0_cons, append_assoc.
  destruct it as [k|k|k]; cbn [fits Re.match_here] in *.
  - destruct Hw as (a & -> & A). cbn. rewrite A.
    specialize (IH rest).
    destruct (Re.match_here ignorecase p (Re.group0 ws ++ rest))
      as [[? ?]|]; [discriminate | congruence].
  - apply star_complete; auto.
  - destruct Hw as [Hne Hw]. destruct w as [|a w]; [congruence|].
    cbn in Hw. apply andb_true_iff in Hw as [A Hw]. cbn. rewrite A.
    pose proof (star_complete _ (Re.match_here ignorecase p) w
                  (Re.group0 ws ++ rest) Hw (IH rest)) as St.
    destruct (Re.star _ _ _) as [[ps r]|] eqn:E; [|congruence].
    destruct (star_sound _ _ _ _ _ E) as (? & ? & ? & -> & _).
    discriminate.
Qed.

Variable p : Re.pattern.

Lemma search_sound (s : string) (ws : list string) :
  Re.search ignorecase p s = Some ws ->
  exists pre post,
    Forall2 (fits ignorecase) p ws /\ s = (pre ++ Re.group0 ws ++ post)%string.
Proof.
  induction s as [|a s IH]; cbn [Re.search];
    destruct (Re.match_here ignorecase p _) as [[ws' r]|] eqn:M; intros H;
    try discriminate.
  - injection H as <-. apply match_here_sound in M as [F E].
    now exists "", r.
  - injection H as <-. apply match_here_sound in M as [F E].
    now exists "", r.
  - destruct (IH H) as (pre & post & F & ->).
    now exists (String a pre), post.
Qed.

Lemma search_complete (s : string) :
  occurs ignorecase p s -> Re.search ignorecase p s <> None.
Proof.
  intros (pre & ws & post & F & ->).
  induction pre as [|a pre IH].
  - pose proof (match_here_complete p ws F post) as M. cbn [append].
    destruct (Re.group0 ws ++ post)%string; cbn [Re.search];
      destruct (Re.match_here ignorecase p _) as [[? ?]|];
      congruence.
  - cbn [append Re.search].
    now destruct (Re.match_here ignorecase p _) as [[? ?]|].
Qed.

(** [re.search] succeeds exactly when the pattern occurs in the text. *)
Lemma search_occurs (s : string) :
  Re.search ignorecase p s <> None <-> occurs ignorecase p s.
Proof.
  split; [|apply search_complete].
  destruct (Re.search ignorecase p s) as [ws|] eqn:E; [|congruence].
  intros _. destruct (search_sound _ _ E) as (pre & post & F & ->).
  now exists pre, ws, post.
Qed.

Lemma search_none (s : string) :
  Re.search ignorecase p s = None <-> ~ occurs ignorecase p s.
Proof.
  rewrite <- search_occurs.
  destruct (Re.search ignorecase p s); split; intros H;
    try congruence; try reflexivity.
  elim H. discriminate.
Qed.

(** [re.findall] is empty exactly when [re.search] fails. *)
Lemma findall_nil (s : string) :
  Re.findall ignorecase p s = [] <-> Re.search ignorecase p s = None.
Proof.
  unfold Re.findall.
  induction s as [|a s IH]; cbn [Re.findall_from Re.search];
    destruct (Re.match_here ignorecase p _) as [[ws r]|];
    split; try discriminate; auto; apply IH.
Qed.

(** Every element of [re.findall] is the text of a match found in the
    text. *)
Lemma findall_sound (s : string) :
  forall skip ret,
    In ret (Re.findall_from ignorecase p skip s) ->
    exists ws, Forall2 (fits ignorecase) p ws /\ ret = Re.group0 ws
               /\ substring_of ret s.
Proof.
  assert (Tail : forall a t ret, substring_of ret t ->
                                 substring_of ret (String a t)).
  { intros a t ret (pre & post & ->). now exists (String a pre), post. }
  induction s as [|a s IH]; intros skip ret H.
  - destruct skip; cbn in H; [|contradiction].
    destruct (Re.match_here ignorecase p "") as [[ws r]|] eqn:M;
      [|contradiction].
    destruct H as [<-|[]]. apply match_here_sound in M as [F E].
    exists ws. repeat split; auto. now exists "", r.
  - destruct skip as [|n]; cbn [Re.findall_from] in H.
    + destruct (Re.match_here ignorecase p (String a s)) as [[ws r]|] eqn:M.
      * destruct H as [<-|H].
        -- apply match_here_sound in M as [F E].
           exists ws. repeat split; auto. now exists "", r.
        -- destruct (IH _ _ H) as (ws' & F & E & Sub). eauto.
      * destruct (IH _ _ H) as (ws' & F & E & Sub). eauto.
    + destruct (IH _ _ H) as (ws' & F & E & Sub). eauto.
Qed.

End Matcher.



(* ================================================================= *)
(** ** Return statements *)

Lemma accepts_quote (a : ascii) :
  Re.accepts false (Re.OneOf quotes) a = is_quote a.
Proof. cbn. now rewrite orb_false_r. Qed.

Lemma accepts_not_quote (a : ascii) :
  Re.accepts false (Re.NoneOf quotes) a = not_quote a.
Proof. unfold not_quote. cbn. now rewrite orb_false_r. Qed.

Lemma every_ext (f g : ascii -> bool) (s : string) :
  (forall a, f a = g a) -> every f s = every g s.
Proof. intros E. induction s as [|a s IH]; cbn; [reflexivity | now rewrite E, IH]. Qed.

Lemma every_impl (f g : ascii -> bool) (s : string) :
  (forall a, f a = true -> g a = true) -> every f s = true -> every g s = true.
Proof.
  intros E. induction s as [|a s IH]; cbn; [reflexivity|].
  intros H. apply andb_true_iff in H as [Ha Hs]. now rewrite (E _ Ha), IH.
Qed.

Lemma space_not_quote (a : ascii) : isspace a = true -> not_quote a = true.
Proof. destruct a as [[] [] [] [] [] [] [] []]; cbn; congruence. Qed.

(** What [re.findall] returns for the return pattern: texts of the shape
    of a return statement. *)
Lemma return_pattern_shape (ws : list string) :
  Forall2 (fits false) return_pattern ws ->
  exists w q1 body q2,
    Re.group0 ws = return_text w q1 body q2
    /\ w <> "" /\ only_space w = true
    /\ is_quote q1 = true /\ every not_quote body = true
    /\ is_quote q2 = true.
Proof.
  intros F. cbv [return_pattern Re.lits list_ascii_of_string map app] in F.
  repeat match goal with
         | H : Forall2 _ (_ :: _) _ |- _ => inversion H; subst; clear H
         | H : Forall2 _ [] _ |- _ => inversion H; subst; clear H
         end.
  repeat match goal with
         | H : fits _ (Re.One _) _ |- _ => destruct H as (? & -> & ?)
         | H : fits _ (Re.Plus _) _ |- _ => destruct H as (? & ?)
         | H : fits _ (Re.Star _) _ |- _ => cbn [fits] in H
         end.
  repeat match goal with
         | H : Re.accepts false (Re.Lit _) _ = true |- _ =>
             apply Ascii.eqb_eq in H; subst
         | H : Re.accepts false (Re.OneOf quotes) _ = true |- _ =>
             rewrite accepts_quote in H
         end.
  match goal with
  | Hne : ?w <> "", Hw : every (Re.accepts false Re.Space) ?w = true,
    Hb : every (Re.accepts false (Re.NoneOf quotes)) ?b = true,
    H1 : is_quote ?q1 = true, H2 : is_quote ?q2 = true |- _ =>
      exists w, q1, b, q2
  end.
  rewrite !group0_cons. cbn [Re.group0 String.concat].
  repeat split; auto.
  erewrite every_ext; [eassumption|]. intros a. now rewrite accepts_not_quote.
Qed.

Lemma returns_shape (content ret : string) :
  In ret (Re.findall false return_pattern content) ->
  substring_of ret content
  /\ exists w q1 body q2,
       ret = return_text w q1 body q2
       /\ w <> "" /\ only_space w = true
       /\ is_quote q1 = true /\ every not_quote body = true
       /\ is_quote q2 = true.
Proof.
  intros H. apply findall_sound in H as (ws & F & -> & Sub).
  split; [assumption | now apply return_pattern_shape].
Qed.

(** The search for the quoted value steps over text without quotes. *)
Lemma search_value_skip (pre s : string) :
  every not_quote pre = true ->
  Re.search false value_pattern (pre ++ s) = Re.search false value_pattern s.
Proof.
  induction pre as [|a pre IH]; cbn [append every]; [reflexivity|].
  intros H. apply andb_true_iff in H as [Ha Hp].
  cbn [Re.search value_pattern Re.match_here]. rewrite accepts_quote.
  unfold not_quote in Ha. apply negb_true_iff in Ha. rewrite Ha.
  now apply IH.
Qed.

(** The value classified for a return statement is the trimmed text
    between its quotes. *)
Lemma return_value_text (w : string) (q1 : ascii) (body : string) (q2 : ascii) :
  only_space w = true -> is_quote q1 = true ->
  every not_quote body = true -> is_quote q2 = true ->
  return_value (return_text w q1 body q2) = strip body.
Proof.
  intros Hw H1 Hb H2. unfold return_value, return_text.
  rewrite <- append_assoc, search_value_skip.
  2:{ rewrite every_append. apply andb_true_iff. split; [reflexivity|].
      revert Hw. apply every_impl, space_not_quote. }
  cbn [Re.search value_pattern Re.match_here]. rewrite accepts_quote, H1.
  rewrite (star_greedy _ _ body q2 "" [String q2 ""] "").
  - reflexivity.
  - erewrite every_ext; [eassumption|]. apply accepts_not_quote.
  - rewrite accepts_not_quote. unfold not_quote. now rewrite H2.
  - cbn [Re.match_here]. now rewrite accepts_quote, H2.
Qed.


(* ================================================================= *)
(** ** The shape of the declaration *)

Lemma upper_lower_char (a : ascii) : upper_char (lower_char a) = upper_char a.
Proof. destruct a as [[] [] [] [] [] [] [] []]; reflexivity. Qed.

Lemma lower_upper_char (a : ascii) : lower_char (upper_char a) = lower_char a.
Proof. destruct a as [[] [] [] [] [] [] [] []]; reflexivity. Qed.

(** Folding to lower case and folding to upper case compare alike. *)
Lemma same_char_letter (a c : ascii) : Re.same_char true a c = same_letter a c.
Proof.
  unfold Re.same_char, same_letter.
  destruct (Ascii.eqb_spec (lower_char a) (lower_char c)) as [E|N],
           (Ascii.eqb_spec (upper_char a) (upper_char c)) as [E'|N'];
    try reflexivity.
  - elim N'. now rewrite <- (upper_lower_char a), E, upper_lower_char.
  - elim N. now rewrite <- (lower_upper_char a), E', lower_upper_char.
Qed.

Lemma group0_app (ws vs : list string) :
  Re.group0 (ws ++ vs) = (Re.group0 ws ++ Re.group0 vs)%string.
Proof.
  induction ws as [|w ws IH]; [reflexivity|].
  cbn [app]. now rewrite !group0_cons, IH, append_assoc.
Qed.

(** The pieces that fit a run of literal characters spell the run, up to
    the case of letters. *)
Lemma fits_lits (t : string) :
  forall ws, Forall2 (fits true) (Re.lits t) ws ->
             same_text (Re.group0 ws) t = true.
Proof.
  induction t as [|c t IH]; intros ws F; inversion F; subst; [reflexivity|].
  match goal with H : fits _ _ _ |- _ => destruct H as (a & -> & A) end.
  rewrite group0_cons. cbn [append same_text]. cbn [Re.accepts] in A.
  rewrite same_char_letter in A. rewrite A. now apply IH.
Qed.

Lemma lits_fit (t : string) :
  forall s, same_text s t = true ->
            exists ws, Forall2 (fits true) (Re.lits t) ws /\ Re.group0 ws = s.
Proof.
  induction t as [|c t IH]; intros [|a s] H; try discriminate.
  - exists []. split; [constructor | reflexivity].
  - cbn in H. apply andb_true_iff in H as [A H].
    destruct (IH _ H) as (ws & F & <-).
    exists (String a "" :: ws). split; [|now rewrite group0_cons].
    constructor; [|exact F]. exists a. split; [reflexivity|].
    cbn [Re.accepts]. now rewrite same_char_letter.
Qed.

Lemma same_char_mark (a c : ascii) :
  is_upper c = false -> is_lower c = false ->
  Re.same_char true a c = true -> a = c.
Proof.
  intros U L H. unfold Re.same_char in H. apply Ascii.eqb_eq in H.
  unfold lower_char in H at 2. rewrite U in H. subst c.
  destruct a as [[] [] [] [] [] [] [] []]; try reflexivity; discriminate.
Qed.

Ltac invert_fits :=
  repeat match goal with
         | H : Forall2 _ (_ :: _) _ |- _ => inversion H; subst; clear H
         | H : Forall2 _ [] _ |- _ => inversion H; subst; clear H
         | H : fits _ (Re.One _) _ |- _ => destruct H as (? & -> & ?)
         | H : fits _ (Re.Plus _) _ |- _ => destruct H as (? & ?)
         | H : fits _ (Re.Star _) _ |- _ => cbn [fits] in H
         | H : Re.accepts true (Re.Lit _) _ = true |- _ =>
             cbn [Re.accepts] in H;
             apply same_char_mark in H; [subst | reflexivity..]
         end.

(** The pattern of the source occurs exactly where a declaration of that
    shape does. *)
Lemma signature_pattern (content : string) :
  occurs true find_proxy_pattern content <-> signature_occurs content.
Proof.
  split.
  - intros (pre & ws & post & F & ->). unfold find_proxy_pattern in F.
    apply Forall2_app_inv_l in F as (a1 & r1 & F1 & F & ->).
    apply Forall2_app_inv_l in F as (a2 & r2 & F2 & F & ->).
    apply Forall2_app_inv_l in F as (a3 & r3 & F3 & F & ->).
    apply Forall2_app_inv_l in F as (a4 & r4 & F4 & F & ->).
    apply Forall2_app_inv_l in F as (a5 & r5 & F5 & F & ->).
    apply Forall2_app_inv_l in F as (a6 & r6 & F6 & F & ->).
    apply Forall2_app_inv_l in F as (a7 & r7 & F7 & F & ->).
    apply Forall2_app_inv_l in F as (a8 & r8 & F8 & F & ->).
    apply Forall2_app_inv_l in F as (a9 & r9 & F9 & F & ->).
    apply Forall2_app_inv_l in F as (a10 & r10 & F10 & F & ->).
    apply Forall2_app_inv_l in F as (a11 & a12 & F11 & F12 & ->).
    apply fits_lits in F1, F3, F6, F9.
    invert_fits.
    rewrite !group0_app, !group0_cons. cbn [Re.group0 String.concat].
    rewrite !append_nil_r. unfold signature_occurs, signature_text.
    do 13 eexists. split; [cbn [append]; reflexivity|].
    repeat split; eassumption.
  - intros (pre & kw & w1 & name & w2 & w3 & p1 & w4 & w5 & p2 & w6 & w7 & post
            & -> & K & N1 & W1 & N & W2 & W3 & P1 & W4 & W5 & P2 & W6 & W7).
    apply lits_fit in K as (a1 & F1 & <-), N as (a3 & F3 & <-),
      P1 as (a6 & F6 & <-), P2 as (a9 & F9 & <-).
    exists pre,
      (a1 ++ [w1] ++ a3 ++ [w2] ++ ["("; w3] ++ a6 ++ [w4] ++ [","; w5]
       ++ a9 ++ [w6] ++ [")"; w7] ++ ["{"])%list,
      post.
    split.
    + unfold find_proxy_pattern.
      repeat (apply Forall2_app; [assumption || (repeat constructor) |]);
        try (repeat constructor);
        try assumption; try (now split); try (now eexists).
    + rewrite !group0_app, !group0_cons. cbn [Re.group0 String.concat].
      unfold signature_text. now rewrite !append_assoc.
Qed.

(** The return pattern occurs exactly where a return statement does. *)
Lemma return_pattern_occurs (content : string) :
  occurs false return_pattern content <-> return_occurs content.
Proof.
  split.
  - intros (pre & ws & post & F & ->).
    destruct (return_pattern_shape ws F)
      as (w & q1 & body & q2 & -> & H).
    now exists pre, w, q1, body, q2, post.
  - intros (pre & w & q1 & body & q2 & post & -> & N & W & Q1 & B & Q2).
    exists pre,
      ["r"; "e"; "t"; "u"; "r"; "n"; w; String q1 ""; body; String q2 ""],
      post.
    split.
    + cbv [return_pattern Re.lits list_ascii_of_string map app].
      repeat constructor; try (now eexists); try assumption.
      * exists q1. now rewrite accepts_quote.
      * cbn [fits]. erewrite every_ext; [exact B|]. apply accepts_not_quote.
      * exists q2. now rewrite accepts_quote.
    + rewrite !group0_cons. cbn [Re.group0 String.concat].
      unfold return_text. cbn [append]. now rewrite !append_assoc.
Qed.

(* ================================================================= *)
(** ** The messages are pairwise distinct *)

Lemma append_inj_l (s t u : string) : (s ++ t)%string = (s ++ u)%string -> t = u.
Proof. induction s as [|a s IH]; cbn; [auto | intros [= E]; auto]. Qed.

Lemma append_quote_inj (v v' : string) :
  (v ++ "'")%string = (v' ++ "'")%string -> v = v'.
Proof.
  revert v'. induction v as [|a v IH]; intros [|b v']; cbn; intros E.
  - reflexivity.
  - injection E as <- E. destruct v'; discriminate.
  - injection E as -> E. destruct v; discriminate.
  - injection E as -> E. now rewrite (IH _ E).
Qed.

Lemma missing_braces_inj (n m : Z) :
  missing_braces_msg n = missing_braces_msg m -> n = m.
Proof.
  unfold missing_braces_msg. intros E. apply append_inj_l in E.
  now apply numeral_then_tail in E as [E _].
Qed.

Lemma missing_parens_inj (n m : Z) :
  missing_parens_msg n = missing_parens_msg m -> n = m.
Proof.
  unfold missing_parens_msg. intros E. apply append_inj_l in E.
  now apply numeral_then_tail in E as [E _].
Qed.

Lemma missing_braces_not_parens (n m : Z) :
  missing_braces_msg n <> missing_parens_msg m.
Proof.
  unfold missing_braces_msg, missing_parens_msg. intros E.
  apply append_inj_l in E.
  apply numeral_then_tail in E as [_ E]; [discriminate | reflexivity..].
Qed.

Lemma missing_braces_not_function (n : Z) :
  missing_braces_msg n <> missing_function_msg.
Proof.
  unfold missing_braces_msg, missing_function_msg. intros E.
  change "Missing required 'FindProxyForURL(url, host)' function"
    with ("Missing " ++ "" ++ "required 'FindProxyForURL(url, host)' function")%string
    in E.
  apply append_inj_l in E.
  apply (run_then_stop numeral_char) in E as (_ & E & _);
    [discriminate | apply numeral_str_int | reflexivity..].
Qed.

Lemma missing_parens_not_function (n : Z) :
  missing_parens_msg n <> missing_function_msg.
Proof.
  unfold missing_parens_msg, missing_function_msg. intros E.
  change "Missing required 'FindProxyForURL(url, host)' function"
    with ("Missing " ++ "" ++ "required 'FindProxyForURL(url, host)' function")%string
    in E.
  apply append_inj_l in E.
  apply (run_then_stop numeral_char) in E as (_ & E & _);
    [discriminate | apply numeral_str_int | reflexivity..].
Qed.

Lemma unmatched_brace_inj (i j : Z) :
  unmatched_brace_msg i = unmatched_brace_msg j -> i = j.
Proof.
  unfold unmatched_brace_msg. intros E. apply append_inj_l in E.
  now apply numeral_then_tail in E as [E _].
Qed.

Lemma unmatched_paren_inj (i j : Z) :
  unmatched_paren_msg i = unmatched_paren_msg j -> i = j.
Proof.
  unfold unmatched_paren_msg. intros E. apply append_inj_l in E.
  now apply numeral_then_tail in E as [E _].
Qed.

Lemma unmatched_brace_not_paren (i j : Z) :
  unmatched_brace_msg i <> unmatched_paren_msg j.
Proof.
  unfold unmatched_brace_msg, unmatched_paren_msg. intros E.
  apply append_inj_l in E.
  apply numeral_then_tail in E as [_ E]; [discriminate | reflexivity..].
Qed.

Lemma valid_return_inj (v v' : string) :
  valid_return_msg v = valid_return_msg v' -> v = v'.
Proof.
  unfold valid_return_msg. intros E. apply append_inj_l in E.
  now apply append_quote_inj.
Qed.

Lemma unusual_return_inj (v v' : string) :
  unusual_return_msg v = unusual_return_msg v' -> v = v'.
Proof.
  unfold unusual_return_msg. intros E. apply append_inj_l in E.
  now apply append_quote_inj.
Qed.

(** *** Where each error comes from *)


Lemma startswith_append (p s : string) : startswith (p ++ s) p = true.
Proof.
  unfold startswith. induction p as [|a p IH]; cbn.
  - now destruct s.
  - now destruct (ascii_dec a a).
Qed.

Lemma closer_msg_line (pre : string) (c : ascii) (m : string) :
  In m (closer_msg pre c) ->
  (c = "}"%char /\ (brace_balance pre <= 0)%Z
   /\ m = unmatched_brace_msg (line_after pre))
  \/ (c = ")"%char /\ (paren_balance pre <= 0)%Z
      /\ m = unmatched_paren_msg (line_after pre)).
Proof.
  unfold closer_msg.
  destruct (Ascii.eqb_spec c "}") as [->|_]; cbn [andb].
  - destruct (Z.leb_spec (brace_balance pre) 0); cbn.
    + intros [<-|[]]. auto.
    + intros [].
  - destruct (Ascii.eqb_spec c ")") as [->|_]; cbn [andb]; [|intros []].
    destruct (Z.leb_spec (paren_balance pre) 0); cbn.
    + intros [<-|[]]. auto.
    + intros [].
Qed.

Lemma closers_line (s pre m : string) :
  In m (closers pre s) -> line_msg m = true.
Proof.
  revert pre. induction s as [|c s IH]; intros pre; cbn [closers]; [intros []|].
  rewrite in_app_iff. intros [H|H]; [|eauto].
  apply closer_msg_line in H as [(_ & _ & ->)|(_ & _ & ->)];
    apply startswith_append.
Qed.

Lemma in_function_errors (content m : string) :
  In m (function_errors content) ->
  m = missing_function_msg /\ Re.search true find_proxy_pattern content = None.
Proof.
  unfold function_errors. destruct Re.search; [intros [] | intros [<-|[]]; auto].
Qed.

Lemma in_brace_errors (n : Z) (m : string) :
  In m (brace_errors n) ->
  ((0 < n)%Z /\ m = missing_braces_msg n) \/ ((n < 0)%Z /\ m = extra_braces_msg).
Proof.
  unfold brace_errors.
  destruct (Z.ltb_spec 0 n); [intros [<-|[]]; auto|].
  destruct (Z.ltb_spec n 0); [intros [<-|[]]; auto | intros []].
Qed.

Lemma in_paren_errors (n : Z) (m : string) :
  In m (paren_errors n) ->
  ((0 < n)%Z /\ m = missing_parens_msg n) \/ ((n < 0)%Z /\ m = extra_parens_msg).
Proof.
  unfold paren_errors.
  destruct (Z.ltb_spec 0 n); [intros [<-|[]]; auto|].
  destruct (Z.ltb_spec n 0); [intros [<-|[]]; auto | intros []].
Qed.

Lemma count_occ_absent (l : list string) (m : string) :
  ~ In m l -> count_occ string_dec l m = 0.
Proof. apply count_occ_not_In. Qed.

Lemma count_occ_single (m : string) : count_occ string_dec [m] m = 1.
Proof. cbn. now destruct (string_dec m m). Qed.

(** Blank text holds no brace, no parenthesis and no match. *)
Lemma blank_balance (content : string) :
  is_blank content = true ->
  brace_balance content = 0%Z /\ paren_balance content = 0%Z.
Proof.
  rewrite is_blank_only_space. unfold only_space, brace_balance, paren_balance.
  intros H.
  rewrite !(count_char_absent isspace) by (assumption || reflexivity).
  auto.
Qed.

Lemma not_blank_char (pre : string) (c : ascii) (post : string) :
  isspace c = false -> is_blank (pre ++ String c post) = false.
Proof.
  intros H. rewrite is_blank_only_space. unfold only_space.
  rewrite every_append. cbn. rewrite H. apply andb_false_r.
Qed.

(** The verdict of a run that is not cut short. *)
Lemma validate_report (content : string) :
  is_blank content = false ->
  validate_pac_content content =
  Report (fst (generate_report (run_checks content)))
         (snd (generate_report (run_checks content))).
Proof.
  unfold validate_pac_content. intros ->.
  now destruct (generate_report (run_checks content)).
Qed.

Lemma verdict_errors (f : Findings) :
  snd (generate_report f) = match errors f with [] => "VALID" | _ :: _ => "INVALID" end.
Proof. unfold generate_report. now destruct (errors f). Qed.

Lemma status_invalid (content m : string) :
  is_blank content = false -> In m (errors (run_checks content)) ->
  status_of (validate_pac_content content) = Some "INVALID".
Proof.
  intros B H. rewrite validate_report by assumption. cbn [status_of].
  rewrite verdict_errors. now destruct (errors (run_checks content)).
Qed.


(** The warnings and the INFO entries when all the checks have run. *)
Lemma warnings_run_checks (content : string) :
  warnings (run_checks content) =
  returns_warnings (Re.findall false return_pattern content).
Proof.
  unfold run_checks, returns_warnings.
  rewrite check_pac_functions_spec, check_returns_spec, check_brackets_spec,
    check_function_spec.
  destruct (present content), (Re.findall false return_pattern content),
    (Re.search true find_proxy_pattern content); reflexivity.
Qed.

Lemma info_run_checks (content : string) :
  info (run_checks content) =
  function_info content
  ++ returns_info (Re.findall false return_pattern content)
  ++ functions_info content.
Proof.
  unfold run_checks, function_info, returns_info, functions_info.
  rewrite check_pac_functions_spec, check_returns_spec, check_brackets_spec,
    check_function_spec.
  destruct (present content), (Re.findall false return_pattern content),
    (Re.search true find_proxy_pattern content);
    cbn [errors warnings info app]; rewrite ?app_nil_r; reflexivity.
Qed.

Lemma validate_findings (content : string) :
  validate_pac_content content =
  match findings_of content with
  | None => Advisory empty_msg
  | Some f => Report (fst (generate_report f)) (snd (generate_report f))
  end.
Proof.
  unfold validate_pac_content, findings_of.
  destruct (is_blank content); [reflexivity|].
  now destruct (generate_report (run_checks content)).
Qed.

(* ================================================================= *)
(** ** Prefixes and stretches of a text *)

Lemma startswith_spec (s p : string) :
  startswith s p = true <-> exists post, s = (p ++ post)%string.
Proof.
  unfold startswith. revert s. induction p as [|a p IH]; intros s.
  - split; [exists s; reflexivity | now destruct s].
  - destruct s as [|b s]; cbn.
    + split; [discriminate | intros [post [=]]].
    + destruct (ascii_dec a b) as [<-|N].
      * rewrite IH. split; intros [post E]; exists post; cbn; congruence.
      * split; [discriminate | intros [post [= E _]]; congruence].
Qed.

(** [sub in s] holds exactly when [sub] is a stretch of [s]. *)
Lemma contains_spec (sub s : string) :
  contains sub s = true <-> substring_of sub s.
Proof.
  induction s as [|a s IH]; cbn [contains].
  - rewrite orb_false_r. fold (startswith "" sub). rewrite startswith_spec.
    split.
    + intros [post E]. now exists "", post.
    + intros ([|? ?] & post & E); [now exists post | discriminate].
  - rewrite orb_true_iff, IH. fold (startswith (String a s) sub).
    rewrite startswith_spec. split.
    + intros [[post E]|(pre & post & ->)].
      * now exists "", post.
      * now exists (String a pre), post.
    + intros ([|b pre] & post & E).
      * left. now exists post.
      * right. injection E as _ ->. now exists pre, post.
Qed.

(** The test of the source against the comparison letter by letter. *)
Lemma startswith_upper (p v : string) :
  startswith (upper v) (upper p) = ci_prefix p v.
Proof.
  unfold startswith. revert v. induction p as [|a p IH]; intros v.
  - now destruct v.
  - destruct v as [|b v]; cbn; [reflexivity|].
    unfold same_letter. rewrite <- IH.
    destruct (ascii_dec (upper_char a) (upper_char b)) as [E|N].
    + rewrite E, Ascii.eqb_refl. reflexivity.
    + destruct (Ascii.eqb_spec (upper_char a) (upper_char b)); [contradiction|].
      reflexivity.
Qed.

(** A value is valid exactly when one of the five words is a prefix of it
    up to the case of letters. *)
Lemma is_valid_ci (value : string) :
  is_valid value = existsb (fun p => ci_prefix p value) valid_prefixes.
Proof.
  unfold is_valid, valid_prefixes. cbn [existsb].
  now rewrite <- !startswith_upper.
Qed.

(* ================================================================= *)
(** ** One error for each offending character *)

Lemma count_closers_brace (line : Z) (s pre : string) :
  count_occ string_dec (closers pre s) (unmatched_brace_msg line)
  = offending "}" brace_balance line pre s.
Proof.
  revert pre. induction s as [|c s IH]; intros pre; [reflexivity|].
  cbn [closers offending]. rewrite count_occ_app, IH. f_equal.
  unfold closer_msg.
  destruct (Ascii.eqb_spec c "}") as [->|N]; cbn [andb].
  - destruct (brace_balance pre <=? 0)%Z; [|reflexivity]. cbn [andb count_occ].
    destruct (string_dec _ _) as [E|N], (Z.eqb_spec (line_after pre) line);
      try reflexivity.
    + now apply unmatched_brace_inj in E.
    + congruence.
  - destruct (Ascii.eqb c ")" && (paren_balance pre <=? 0)%Z); [|reflexivity].
    cbn [count_occ].
    destruct (string_dec (unmatched_paren_msg (line_after pre))
                         (unmatched_brace_msg line)) as [E|_]; [|reflexivity].
    symmetry in E. now apply unmatched_brace_not_paren in E.
Qed.

Lemma count_closers_paren (line : Z) (s pre : string) :
  count_occ string_dec (closers pre s) (unmatched_paren_msg line)
  = offending ")" paren_balance line pre s.
Proof.
  revert pre. induction s as [|c s IH]; intros pre; [reflexivity|].
  cbn [closers offending]. rewrite count_occ_app, IH. f_equal.
  unfold closer_msg.
  destruct (Ascii.eqb_spec c "}") as [->|N]; cbn [andb].
  - destruct (brace_balance pre <=? 0)%Z; [|reflexivity]. cbn [count_occ].
    destruct (string_dec (unmatched_brace_msg (line_after pre))
                         (unmatched_paren_msg line)) as [E|_]; [|reflexivity].
    now apply unmatched_brace_not_paren in E.
  - destruct (Ascii.eqb_spec c ")") as [->|N']; cbn [andb]; [|reflexivity].
    destruct (paren_balance pre <=? 0)%Z; [|reflexivity]. cbn [andb count_occ].
    destruct (string_dec _ _) as [E|N'], (Z.eqb_spec (line_after pre) line);
      try reflexivity.
    + now apply unmatched_paren_inj in E.
    + congruence.
Qed.

(** The closer at a given place of the text has its message among those
    of the text. *)
Lemma closers_at (pre : string) (c : ascii) (post start : string) :
  incl (closer_msg (start ++ pre) c) (closers start (pre ++ String c post)).
Proof.
  revert start. induction pre as [|a pre IH]; intros start; cbn [append closers].
  - rewrite append_nil_r. apply incl_appl, incl_refl.
  - apply incl_appr. specialize (IH (start ++ String a "")%string).
    now rewrite append_cons_shift in IH.
Qed.

(* ================================================================= *)
(** ** Counting a message among the errors *)

Lemma in_errors (content m : string) :
  In m (errors (run_checks content)) <->
  In m (function_errors content) \/ In m (closers "" content)
  \/ In m (brace_errors (brace_balance content))
  \/ In m (paren_errors (paren_balance content)).
Proof. now rewrite errors_run_checks, !in_app_iff. Qed.

Lemma count_errors (content m : string) :
  count_occ string_dec (errors (run_checks content)) m =
  count_occ string_dec (function_errors content) m
  + count_occ string_dec (closers "" content) m
  + count_occ string_dec (brace_errors (brace_balance content)) m
  + count_occ string_dec (paren_errors (paren_balance content)) m.
Proof. rewrite errors_run_checks, !count_occ_app. lia. Qed.

(** A message that is not one of the scan is counted outside the
    closers only. *)
Lemma count_closers_other (s pre m : string) :
  line_msg m = false -> count_occ string_dec (closers pre s) m = 0.
Proof.
  intros H. apply count_occ_absent. intros I%closers_line. congruence.
Qed.

Lemma count_errors_line (content m : string) :
  line_msg m = true ->
  count_occ string_dec (errors (run_checks content)) m
  = count_occ string_dec (closers "" content) m.
Proof.
  intros L. rewrite count_errors.
  rewrite (count_occ_absent (function_errors content)),
    (count_occ_absent (brace_errors _)), (count_occ_absent (paren_errors _));
    [lia | | |].
  - intros I. apply in_paren_errors in I as [[_ ->]|[_ ->]]; discriminate.
  - intros I. apply in_brace_errors in I as [[_ ->]|[_ ->]]; discriminate.
  - intros I. apply in_function_errors in I as [-> _]. discriminate.
Qed.

(** An imbalance is the mark of a text that is not blank. *)
Lemma findings_of_unbalanced (content : string) :
  brace_balance content <> 0%Z \/ paren_balance content <> 0%Z ->
  findings_of content = Some (run_checks content).
Proof.
  intros H. unfold findings_of.
  destruct (is_blank content) eqn:B; [|reflexivity].
  apply blank_balance in B as [B P]. lia.
Qed.

(** A text that holds a stretch starting with a character other than
    white space is not blank: the checks run on it. *)
Lemma findings_of_stretch (content : string) (c : ascii) (r : string) :
  substring_of (String c r) content -> isspace c = false ->
  findings_of content = Some (run_checks content).
Proof.
  intros (pre & post & ->) H. unfold findings_of.
  cbn [append]. now rewrite not_blank_char.
Qed.

(* ================================================================= *)
(** ** The findings about return statements *)

Lemma truthy_nonempty (s : string) : truthy s = true <-> s <> "".
Proof. destruct s; cbn; split; congruence. Qed.

Lemma in_classified (returns : list string) (ret : string) :
  In ret returns -> return_value ret <> "" ->
  In (return_value ret) (classified returns).
Proof.
  intros I N. unfold classified. apply filter_In. split.
  - now apply in_map.
  - now apply truthy_nonempty.
Qed.

Lemma in_returns_warnings (returns : list string) (v : string) :
  In (unusual_return_msg v) (returns_warnings returns) ->
  In v (classified returns) /\ is_valid v = false.
Proof.
  unfold returns_warnings. destruct returns as [|r rs].
  - intros [E|[]]. discriminate.
  - intros I. apply in_map_iff in I as (v' & E & I).
    apply unusual_return_inj in E as ->.
    apply filter_In in I as [I V]. now apply negb_true_iff in V.
Qed.

Lemma in_info_valid (content v : string) :
  In (valid_return_msg v) (info (run_checks content)) ->
  In v (classified (Re.findall false return_pattern content))
  /\ is_valid v = true.
Proof.
  rewrite info_run_checks, !in_app_iff. intros [I|[I|I]].
  - unfold function_info in I. destruct Re.search; [|destruct I].
    destruct I as [E|[]]. discriminate.
  - unfold returns_info in I.
    destruct (Re.findall false return_pattern content) as [|r rs];
      [destruct I|].
    destruct I as [E|I]; [discriminate|].
    apply in_map_iff in I as (v' & E & I).
    apply valid_return_inj in E as ->. now apply filter_In in I.
  - unfold functions_info in I. destruct (present content); [destruct I|].
    destruct I as [E|[]]. discriminate.
Qed.

(* ================================================================= *)
(** ** The scan of the known PAC functions *)

Lemma filter_none {A} (keep : A -> bool) (xs : list A) :
  (forall x, In x xs -> keep x = false) -> filter keep xs = [].
Proof.
  induction xs as [|x xs IH]; intros H; cbn; [reflexivity|].
  rewrite (H x) by now left. apply IH. intros y I. apply H. now right.
Qed.

Lemma pac_msg_info (content : string) :
  filter pac_msg (info (run_checks content)) = functions_info content.
Proof.
  rewrite info_run_checks, !filter_app.
  rewrite (filter_none _ (function_info content)),
    (filter_none _ (returns_info _)).
  - unfold functions_info. destruct (present content) as [|n ns]; [reflexivity|].
    cbn [filter app]. unfold pac_msg, pac_functions_msg.
    now rewrite startswith_append.
  - intros m I. unfold returns_info in I.
    destruct (Re.findall false return_pattern content); [destruct I|].
    destruct I as [<-|I]; [reflexivity|].
    apply in_map_iff in I as (v & <- & _). reflexivity.
  - intros m I. unfold function_info in I.
    destruct Re.search; [|destruct I]. destruct I as [<-|[]]. reflexivity.
Qed.

Lemma pac_function_head (func : string) :
  In func pac_functions ->
  exists c r, func = String c r /\ isspace c = false.
Proof.
  unfold pac_functions. cbn [In].
  intros H; repeat destruct H as [<-|H]; try contradiction;
    eexists _, _; split; reflexivity.
Qed.

(* ================================================================= *)
(** ** The scenarios of the specification *)

(** A declaration and a return of DIRECT: VALID, one INFO for the
    function, one for the count and one for the valid return. *)
Example scenario_valid :
  validate_pac_content sample_valid
  = Report
      (join nl
         ["ℹ️ INFO:";
          "  • ✅ Found FindProxyForURL function";
          "  • Found 1 return statement(s)";
          "  • Valid return: 'DIRECT'";
          "";
          "✅ PAC file syntax appears valid!"])
      "VALID".
Proof. vm_compute. reflexivity. Qed.

(** The same script without its last brace: INVALID, and the report
    holds the message of one missing brace. *)
Example scenario_missing_brace :
  status_of (validate_pac_content sample_missing_brace) = Some "INVALID"
  /\ errors (run_checks sample_missing_brace) = ["Missing 1 closing brace(s)"]
  /\ contains "Missing 1 closing brace(s)"
       (text_of (validate_pac_content sample_missing_brace)) = true.
Proof. vm_compute. auto. Qed.

(** A text with no function and no return: INVALID, the error of the
    missing function and the warning of the missing returns. *)
Example scenario_weird :
  validate_pac_content sample_weird
  = Report
      (join nl
         ["🚨 ERRORS:";
          "  • Missing required 'FindProxyForURL(url, host)' function";
          "";
          "⚠️ WARNINGS:";
          "  • No return statements found";
          "";
          "❌ PAC file has syntax errors"])
      "INVALID".
Proof. vm_compute. reflexivity. Qed.

(** Errors, warnings and INFO together, in the order of the report. *)
Example scenario_lines :
  run_checks sample_lines
  = mkFindings
      ["Line 4: Unmatched closing brace";
       "Line 5: Unmatched closing parenthesis";
       "Extra closing brace(s)";
       "Extra closing parenthesis"]
      ["Unusual return value: 'x'"]
      ["✅ Found FindProxyForURL function";
       "Found 4 return statement(s)";
       "Valid return: 'proxy a:80; DIRECT'";
       "Valid return: 'Socks5 a'";
       "PAC functions used: isPlainHostName, dnsDomainIs, isInNet"].
Proof. vm_compute. reflexivity. Qed.

(* ================================================================= *)
(** ** The properties of the specification *)








(** C4. When the scan ends with the brace counter at [n]: [n] is the
    number of opening braces of the text minus the number of closing
    ones; if [n] is positive the errors hold the message
    Missing n closing brace(s) exactly once, no such message for another
    count, and no message about extra braces; if [n] is negative they
    hold Extra closing brace(s), which carries no count, exactly once and
    no message about missing braces. *)
Theorem C4_brace_summary (content : string) (n : Z) :
  brackets (scan content (check_function content no_findings)) = n ->
  n <> 0%Z ->
  let errs := errors (run_checks content) in
  n = brace_balance content
  /\ findings_of content = Some (run_checks content)
  /\ missing_braces_msg n = ("Missing " ++ str_int n ++ " closing brace(s)")%string
  /\ extra_braces_msg = "Extra closing brace(s)"
  /\ ((0 < n)%Z ->
      count_occ string_dec errs (missing_braces_msg n) = 1
      /\ (forall k, k <> n -> ~ In (missing_braces_msg k) errs)
      /\ ~ In extra_braces_msg errs)
  /\ ((n < 0)%Z ->
      count_occ string_dec errs extra_braces_msg = 1
      /\ forall k, ~ In (missing_braces_msg k) errs).
Proof.
  intros Hn Hnz errs.
  destruct (scan_spec content (check_function content no_findings))
    as (B & _). rewrite Hn in B.
  split; [exact B|]. split; [apply findings_of_unbalanced; lia|].
  do 2 (split; [reflexivity|]).
  assert (Other : forall k, k <> n -> ~ In (missing_braces_msg k) errs).
  { intros k Hk I. apply in_errors in I as [I|[I|[I|I]]].
    - apply in_function_errors in I as [E _].
      exact (missing_braces_not_function _ E).
    - apply closers_line in I. discriminate.
    - rewrite <- B in I. apply in_brace_errors in I as [[_ E]|[_ E]].
      + now apply missing_braces_inj in E.
      + discriminate.
    - apply in_paren_errors in I as [[_ E]|[_ E]].
      + exact (missing_braces_not_parens _ _ E).
      + discriminate. }
  assert (Extra : forall m, m = extra_braces_msg ->
            count_occ string_dec errs m
            = count_occ string_dec (brace_errors n) m).
  { intros m ->. unfold errs. rewrite count_errors, <- B.
    rewrite (count_occ_absent (function_errors content)),
      (count_closers_other content ""), (count_occ_absent (paren_errors _));
      [lia | | reflexivity |].
    - intros I. apply in_paren_errors in I as [[_ E]|[_ E]]; [|discriminate].
      symmetry in E. unfold missing_parens_msg in E. discriminate.
    - intros I. apply in_function_errors in I as [E _]. discriminate. }
  split; intros Hs.
  - split; [|split; [exact Other|]].
    + unfold errs. rewrite count_errors, <- B.
      rewrite (count_occ_absent (function_errors content)),
        (count_closers_other content ""), (count_occ_absent (paren_errors _)).
      * unfold brace_errors. destruct (Z.ltb_spec 0 n); [|lia].
        now rewrite count_occ_single.
      * intros I. apply in_paren_errors in I as [[_ E]|[_ E]].
        -- exact (missing_braces_not_parens _ _ E).
        -- discriminate.
      * reflexivity.
      * intros I. apply in_function_errors in I as [E _].
        exact (missing_braces_not_function _ E).
    + apply (count_occ_not_In string_dec). rewrite (Extra _ eq_refl).
      unfold brace_errors. destruct (Z.ltb_spec 0 n); [|lia].
      apply count_occ_absent. intros [E|[]]. discriminate.
  - split.
    + rewrite (Extra _ eq_refl). unfold brace_errors.
      destruct (Z.ltb_spec 0 n); [lia|]. destruct (Z.ltb_spec n 0); [|lia].
      apply count_occ_single.
    + intros k I. destruct (Z.eq_dec k n) as [->|Hk]; [|exact (Other k Hk I)].
      apply in_errors in I as [I|[I|[I|I]]].
      * apply in_function_errors in I as [E _].
        exact (missing_braces_not_function _ E).
      * apply closers_line in I. discriminate.
      * rewrite <- B in I. apply in_brace_errors in I as [[? _]|[_ E]];
          [lia | discriminate].
      * apply in_paren_errors in I as [[_ E]|[_ E]].
        -- exact (missing_braces_not_parens _ _ E).
        -- discriminate.
Qed.

Lemma C4_witness :
  (let errs := errors (run_checks sample_open) in
   2%Z = brace_balance sample_open
   /\ findings_of sample_open = Some (run_checks sample_open)
   /\ missing_braces_msg 2 = ("Missing " ++ str_int 2 ++ " closing brace(s)")%string
   /\ extra_braces_msg = "Extra closing brace(s)"
   /\ ((0 < 2)%Z ->
       count_occ string_dec errs (missing_braces_msg 2) = 1
       /\ (forall k, k <> 2%Z -> ~ In (missing_braces_msg k) errs)
       /\ ~ In extra_braces_msg errs)
   /\ ((2 < 0)%Z ->
       count_occ string_dec errs extra_braces_msg = 1
       /\ forall k, ~ In (missing_braces_msg k) errs))
  /\ count_occ string_dec (errors (run_checks sample_quoted_brace))
       "Extra closing brace(s)" = 1.
Proof.
  split.
  - apply (C4_brace_summary sample_open 2); [reflexivity | discriminate].
  - apply (C4_brace_summary sample_quoted_brace (-1));
      [reflexivity | discriminate | reflexivity].
Defined.

(** C5. The errors are those of the function check, then one message for
    each closing brace or parenthesis that has nothing to close, in the
    order of the text, then the summaries.  For every line, the number of
    messages Line n: Unmatched closing brace (parenthesis) among the
    errors is the number of such characters on that line: each of them
    has its own message.  A closing brace (parenthesis) that follows a
    text with no brace (parenthesis) left open yields the message with
    the 1-based number of its line, and the status is INVALID. *)
Theorem C5_unmatched_closers (content : string) :
  let errs := errors (run_checks content) in
  errs = function_errors content ++ closers "" content
         ++ brace_errors (brace_balance content)
         ++ paren_errors (paren_balance content)
  /\ (forall line,
         count_occ string_dec errs (unmatched_brace_msg line)
         = offending "}" brace_balance line "" content
         /\ count_occ string_dec errs (unmatched_paren_msg line)
            = offending ")" paren_balance line "" content)
  /\ (forall pre post,
         content = (pre ++ String "}" post)%string ->
         (brace_balance pre <= 0)%Z ->
         In (unmatched_brace_msg (line_after pre)) errs
         /\ unmatched_brace_msg (line_after pre)
            = ("Line " ++ str_int (line_after pre)
               ++ ": Unmatched closing brace")%string
         /\ status_of (validate_pac_content content) = Some "INVALID")
  /\ (forall pre post,
         content = (pre ++ String ")" post)%string ->
         (paren_balance pre <= 0)%Z ->
         In (unmatched_paren_msg (line_after pre)) errs
         /\ unmatched_paren_msg (line_after pre)
            = ("Line " ++ str_int (line_after pre)
               ++ ": Unmatched closing parenthesis")%string
         /\ status_of (validate_pac_content content) = Some "INVALID").
Proof.
  intros errs. split; [apply errors_run_checks|]. split.
  { intros line. unfold errs.
    rewrite !count_errors_line by apply startswith_append.
    now rewrite count_closers_brace, count_closers_paren. }
  assert (At : forall pre c post m,
             content = (pre ++ String c post)%string ->
             In m (closer_msg pre c) ->
             In m errs
             /\ status_of (validate_pac_content content) = Some "INVALID").
  { intros pre c post m E I.
    assert (In m errs).
    { apply in_errors. right. left. rewrite E.
      apply (closers_at pre c post ""). exact I. }
    split; [assumption|]. apply (status_invalid content m); [|assumption].
    rewrite E. apply not_blank_char.
    apply closer_msg_line in I as [(-> & _)|(-> & _)]; reflexivity. }
  split; intros pre post E H.
  - destruct (At pre "}"%char post (unmatched_brace_msg (line_after pre)) E)
      as [I S]; [|auto].
    unfold closer_msg. cbn [Ascii.eqb Bool.eqb andb].
    destruct (Z.leb_spec (brace_balance pre) 0); [now left | lia].
  - destruct (At pre ")"%char post (unmatched_paren_msg (line_after pre)) E)
      as [I S]; [|auto].
    unfold closer_msg. cbn [Ascii.eqb Bool.eqb andb].
    destruct (Z.leb_spec (paren_balance pre) 0); [now left | lia].
Qed.

Lemma C5_witness :
  let errs := errors (run_checks sample_lines) in
  (In "Line 4: Unmatched closing brace" errs
   /\ status_of (validate_pac_content sample_lines) = Some "INVALID")
  /\ (In "Line 5: Unmatched closing parenthesis" errs
      /\ status_of (validate_pac_content sample_lines) = Some "INVALID")
  /\ count_occ string_dec (errors (run_checks "}}"))
       "Line 1: Unmatched closing brace" = 2.
Proof.
  destruct (C5_unmatched_closers sample_lines) as (_ & _ & B & P).
  split; [|split].
  - destruct (B sample_lines_head (nl ++ String ")" sample_lines_tail)%string
                eq_refl)
      as (I & _ & S); [discriminate|].
    split; [exact I | exact S].
  - destruct (P (sample_lines_head ++ String "}" nl)%string sample_lines_tail
                eq_refl)
      as (I & _ & S); [discriminate|].
    split; [exact I | exact S].
  - destruct (C5_unmatched_closers "}}") as (_ & H & _).
    destruct (H 1%Z) as [H1 _]. exact H1.
Defined.

(** C6. When the scan ends with the parenthesis counter at [n]: [n] is
    the number of opening parentheses of the text minus the number of
    closing ones; if [n] is positive the errors hold the message
    Missing n closing parenthesis, with the count and the singular noun,
    exactly once, no such message for another count, and no message about
    an extra parenthesis; if [n] is negative they hold
    Extra closing parenthesis, which carries no count, exactly once and no
    message about missing parentheses. *)
Theorem C6_paren_summary (content : string) (n : Z) :
  parentheses (scan content (check_function content no_findings)) = n ->
  n <> 0%Z ->
  let errs := errors (run_checks content) in
  n = paren_balance content
  /\ findings_of content = Some (run_checks content)
  /\ missing_parens_msg n
     = ("Missing " ++ str_int n ++ " closing parenthesis")%string
  /\ extra_parens_msg = "Extra closing parenthesis"
  /\ ((0 < n)%Z ->
      count_occ string_dec errs (missing_parens_msg n) = 1
      /\ (forall k, k <> n -> ~ In (missing_parens_msg k) errs)
      /\ ~ In extra_parens_msg errs)
  /\ ((n < 0)%Z ->
      count_occ string_dec errs extra_parens_msg = 1
      /\ forall k, ~ In (missing_parens_msg k) errs).
Proof.
  intros Hn Hnz errs.
  destruct (scan_spec content (check_function content no_findings))
    as (_ & P & _). rewrite Hn in P.
  split; [exact P|]. split; [apply findings_of_unbalanced; lia|].
  do 2 (split; [reflexivity|]).
  assert (Other : forall k, k <> n -> ~ In (missing_parens_msg k) errs).
  { intros k Hk I. apply in_errors in I as [I|[I|[I|I]]].
    - apply in_function_errors in I as [E _].
      exact (missing_parens_not_function _ E).
    - apply closers_line in I. discriminate.
    - apply in_brace_errors in I as [[_ E]|[_ E]].
      + symmetry in E. exact (missing_braces_not_parens _ _ E).
      + discriminate.
    - rewrite <- P in I. apply in_paren_errors in I as [[_ E]|[_ E]].
      + now apply missing_parens_inj in E.
      + discriminate. }
  assert (Extra : forall m, m = extra_parens_msg ->
            count_occ string_dec errs m
            = count_occ string_dec (paren_errors n) m).
  { intros m ->. unfold errs. rewrite count_errors, <- P.
    rewrite (count_occ_absent (function_errors content)),
      (count_closers_other content ""), (count_occ_absent (brace_errors _));
      [lia | | reflexivity |].
    - intros I. apply in_brace_errors in I as [[_ E]|[_ E]]; discriminate.
    - intros I. apply in_function_errors in I as [E _]. discriminate. }
  split; intros Hs.
  - split; [|split; [exact Other|]].
    + unfold errs. rewrite count_errors, <- P.
      rewrite (count_occ_absent (function_errors content)),
        (count_closers_other content ""), (count_occ_absent (brace_errors _)).
      * unfold paren_errors. destruct (Z.ltb_spec 0 n); [|lia].
        now rewrite count_occ_single.
      * intros I. apply in_brace_errors in I as [[_ E]|[_ E]].
        -- symmetry in E. exact (missing_braces_not_parens _ _ E).
        -- discriminate.
      * reflexivity.
      * intros I. apply in_function_errors in I as [E _].
        exact (missing_parens_not_function _ E).
    + apply (count_occ_not_In string_dec). rewrite (Extra _ eq_refl).
      unfold paren_errors. destruct (Z.ltb_spec 0 n); [|lia].
      apply count_occ_absent. intros [E|[]]. discriminate.
  - split.
    + rewrite (Extra _ eq_refl). unfold paren_errors.
      destruct (Z.ltb_spec 0 n); [lia|]. destruct (Z.ltb_spec n 0); [|lia].
      apply count_occ_single.
    + intros k I. destruct (Z.eq_dec k n) as [->|Hk]; [|exact (Other k Hk I)].
      apply in_errors in I as [I|[I|[I|I]]].
      * apply in_function_errors in I as [E _].
        exact (missing_parens_not_function _ E).
      * apply closers_line in I. discriminate.
      * apply in_brace_errors in I as [[_ E]|[_ E]].
        -- symmetry in E. exact (missing_braces_not_parens _ _ E).
        -- discriminate.
      * rewrite <- P in I. apply in_paren_errors in I as [[? _]|[_ E]];
          [lia | discriminate].
Qed.

Lemma C6_witness :
  (let errs := errors (run_checks sample_open) in
   3%Z = paren_balance sample_open
   /\ findings_of sample_open = Some (run_checks sample_open)
   /\ missing_parens_msg 3
      = ("Missing " ++ str_int 3 ++ " closing parenthesis")%string
   /\ extra_parens_msg = "Extra closing parenthesis"
   /\ ((0 < 3)%Z ->
       count_occ string_dec errs (missing_parens_msg 3) = 1
       /\ (forall k, k <> 3%Z -> ~ In (missing_parens_msg k) errs)
       /\ ~ In extra_parens_msg errs)
   /\ ((3 < 0)%Z ->
       count_occ string_dec errs extra_parens_msg = 1
       /\ forall k, ~ In (missing_parens_msg k) errs))
  /\ count_occ string_dec (errors (run_checks sample_lines))
       "Extra closing parenthesis" = 1.
Proof.
  split.
  - apply (C6_paren_summary sample_open 3); [reflexivity | discriminate].
  - apply (C6_paren_summary sample_lines (-1));
      [reflexivity | discriminate | reflexivity].
Defined.






(** C9. The names collected by the scan are the names of the list of
    twelve that are stretches of the raw text, in the order of the list,
    which starts with isPlainHostName and ends with timeRange.  If some
    name is collected, the INFO entries hold exactly one entry
    PAC functions used: followed by the collected names joined by a comma
    and a space, and the checks did run; if none is, they hold no such
    entry. *)
Theorem C9_pac_functions (content : string) :
  let found_functions := collect_functions content in
  let f := run_checks content in
  List.length pac_functions = 12
  /\ hd "" pac_functions = "isPlainHostName"
  /\ last pac_functions "" = "timeRange"
  /\ found_functions = filter (fun func => contains func content) pac_functions
  /\ (forall func,
         In func found_functions <->
         In func pac_functions /\ substring_of func content)
  /\ (found_functions <> [] ->
      findings_of content = Some f
      /\ filter pac_msg (info f) = [pac_functions_msg found_functions]
      /\ count_occ string_dec (info f) (pac_functions_msg found_functions) = 1
      /\ pac_functions_msg found_functions
         = ("PAC functions used: " ++ join ", " found_functions)%string)
  /\ (found_functions = [] -> filter pac_msg (info f) = []).
Proof.
  intros found_functions f. unfold found_functions, f.
  rewrite collect_functions_present.
  do 4 (split; [reflexivity|]).
  split.
  { intros func. unfold present. rewrite filter_In, contains_spec. tauto. }
  pose proof (pac_msg_info content) as P. unfold functions_info in P.
  destruct (present content) as [|n ns] eqn:E.
  - split; [congruence | auto].
  - split; [|discriminate]. intros _.
    split.
    { assert (I : In n (present content)) by (rewrite E; now left).
      unfold present in I. apply filter_In in I as [I C].
      apply contains_spec in C.
      destruct (pac_function_head n I) as (c & r & -> & H).
      now apply (findings_of_stretch content c r). }
    split; [exact P|]. split; [|reflexivity].
    rewrite info_run_checks, !count_occ_app.
    rewrite (count_occ_absent (function_info content)),
      (count_occ_absent (returns_info _)).
    + unfold functions_info. rewrite E. now rewrite count_occ_single.
    + intros I. unfold returns_info in I.
      destruct (Re.findall false return_pattern content); [destruct I|].
      destruct I as [X|I]; [discriminate|].
      apply in_map_iff in I as (v & X & _). discriminate.
    + intros I. unfold function_info in I.
      destruct Re.search; [|destruct I]. destruct I as [X|[]]. discriminate.
Qed.

Lemma C9_witness :
  filter pac_msg (info (run_checks sample_lines))
  = ["PAC functions used: isPlainHostName, dnsDomainIs, isInNet"]
  /\ filter pac_msg (info (run_checks sample_valid)) = [].
Proof.
  split.
  - destruct (C9_pac_functions sample_lines) as (_ & _ & _ & _ & _ & H & _).
    destruct H as (_ & H & _); [discriminate | exact H].
  - destruct (C9_pac_functions sample_valid) as (_ & _ & _ & _ & _ & _ & H).
    apply H. reflexivity.
Defined.

(** C10. The scan counts every brace and parenthesis of the raw text,
    whatever surrounds it, quotes included: the counters end at the
    balances of the whole text.  The script whose only return gives the
    quoted string made of one closing brace has its program braces
    matched, yet it is found INVALID, with an unmatched closing brace on
    line 1 and extra closing braces; the same script returning another
    string is found VALID. *)
Theorem C10_quoted_brace_counted :
  (forall content f,
      brackets (scan content f) = brace_balance content
      /\ parentheses (scan content f) = paren_balance content)
  /\ sample_quoted_brace
     = ("function FindProxyForURL(url, host) { return "
        ++ String dquote ("}" ++ String dquote "; }"))%string
  /\ brace_balance sample_quoted_brace = (-1)%Z
  /\ errors (run_checks sample_quoted_brace)
     = ["Line 1: Unmatched closing brace"; "Extra closing brace(s)"]
  /\ status_of (validate_pac_content sample_quoted_brace) = Some "INVALID"
  /\ errors (run_checks (sample_quoted "x")) = []
  /\ status_of (validate_pac_content (sample_quoted "x")) = Some "VALID".
Proof.
  split; [|repeat split; vm_compute; reflexivity].
  intros content f. destruct (scan_spec content f) as (B & P & _). auto.
Qed.

(* ================================================================= *)
(** * Further properties of the code *)

(* ================================================================= *)
(** ** When a script is found VALID *)

Lemma closer_msg_nil (pre : string) (c : ascii) :
  closer_msg pre c = [] <->
  (c = "}"%char -> (0 < brace_balance pre)%Z)
  /\ (c = ")"%char -> (0 < paren_balance pre)%Z).
Proof.
  unfold closer_msg.
  destruct (Ascii.eqb_spec c "}") as [->|N1]; cbn [andb].
  - destruct (Z.leb_spec (brace_balance pre) 0).
    + split; [discriminate | intros [K _]; specialize (K eq_refl); lia].
    + split; [|reflexivity]. intros _. split; [auto | discriminate].
  - destruct (Ascii.eqb_spec c ")") as [->|N2]; cbn [andb].
    + destruct (Z.leb_spec (paren_balance pre) 0).
      * split; [discriminate | intros [_ K]; specialize (K eq_refl); lia].
      * split; [|reflexivity]. intros _. split; [discriminate | auto].
    + split; [|reflexivity]. intros _. split; congruence.
Qed.

(** The scan reports nothing exactly when no character of the text owes
    a message. *)
Lemma closers_nil (s start : string) :
  closers start s = [] <->
  forall pre c post,
    s = (pre ++ String c post)%string -> closer_msg (start ++ pre) c = [].
Proof.
  split.
  - intros E pre c post ->.
    pose proof (closers_at pre c post start) as I. rewrite E in I.
    destruct (closer_msg (start ++ pre) c) as [|m ms]; [reflexivity|].
    destruct (I m). now left.
  - revert start. induction s as [|a s IH]; intros start H; [reflexivity|].
    cbn [closers].
    rewrite <- (append_nil_r start) at 1.
    rewrite (H "" a s eq_refl). cbn [app]. apply IH.
    intros pre c post ->. rewrite append_cons_shift.
    now apply (H (String a pre) c post).
Qed.

Lemma brace_errors_nil (n : Z) : brace_errors n = [] <-> n = 0%Z.
Proof.
  unfold brace_errors.
  destruct (Z.ltb_spec 0 n); [split; [discriminate | lia]|].
  destruct (Z.ltb_spec n 0); [split; [discriminate | lia]|].
  split; [lia | reflexivity].
Qed.

Lemma paren_errors_nil (n : Z) : paren_errors n = [] <-> n = 0%Z.
Proof.
  unfold paren_errors.
  destruct (Z.ltb_spec 0 n); [split; [discriminate | lia]|].
  destruct (Z.ltb_spec n 0); [split; [discriminate | lia]|].
  split; [lia | reflexivity].
Qed.

Lemma function_errors_nil (content : string) :
  function_errors content = [] <-> signature_occurs content.
Proof.
  rewrite <- signature_pattern, <- search_occurs. unfold function_errors.
  destruct (Re.search true find_proxy_pattern content);
    split; congruence || discriminate.
Qed.

Lemma app_nil_iff {A} (xs ys : list A) : xs ++ ys = [] <-> xs = [] /\ ys = [].
Proof.
  split; [apply app_eq_nil | intros [-> ->]; reflexivity].
Qed.



(* ================================================================= *)
(** ** The text of the report *)

Lemma join_cons (sep x : string) (xs : list string) :
  xs <> [] -> join sep (x :: xs) = (x ++ sep ++ join sep xs)%string.
Proof. destruct xs; [congruence | reflexivity]. Qed.

(** Each joined item is a stretch of the whole. *)
Lemma join_substring (sep x : string) (xs : list string) :
  In x xs -> substring_of x (join sep xs).
Proof.
  induction xs as [|y ys IH]; [intros []|].
  destruct ys as [|z zs].
  - intros [->|[]]. exists "", "". cbn. now rewrite append_nil_r.
  - rewrite join_cons by discriminate. intros [->|I].
    + now exists "", (sep ++ join sep (z :: zs))%string.
    + destruct (IH I) as (pre & post & ->).
      exists (y ++ sep ++ pre)%string, post. now rewrite !append_assoc.
Qed.

Lemma join_last (sep x : string) (xs : list string) :
  ends_with (join sep (xs ++ [x])) x.
Proof.
  induction xs as [|y ys IH]; [now exists ""|].
  cbn [app]. rewrite join_cons by (destruct ys; discriminate).
  destruct IH as [pre ->]. exists (y ++ sep ++ pre)%string.
  now rewrite !append_assoc.
Qed.

Lemma join_first (sep x : string) (xs : list string) :
  startswith (join sep (x :: xs)) x = true.
Proof.
  destruct xs as [|y ys].
  - change (join sep [x]) with x. rewrite <- (append_nil_r x) at 1.
    apply startswith_append.
  - rewrite join_cons by discriminate. apply startswith_append.
Qed.

Lemma section_lines (banner : string) (items report : list string) :
  section banner items report = report ++ report_section banner items.
Proof.
  unfold section, report_section. destruct items; [now rewrite app_nil_r|].
  now rewrite <- app_assoc.
Qed.

(** The lines that the function joins, and the status beside them. *)
Lemma generate_report_lines (f : Findings) :
  generate_report f
  = (join nl (report_lines f),
     match errors f with [] => "VALID" | _ :: _ => "INVALID" end).
Proof.
  unfold generate_report, report_lines, verdict_banner.
  rewrite !section_lines. cbn [app].
  destruct (errors f); rewrite <- !app_assoc; reflexivity.
Qed.

Lemma in_report_section (banner m : string) (items : list string) :
  In m items -> In (bullet m) (report_section banner items).
Proof.
  intros I. unfold report_section. destruct items as [|x xs]; [destruct I|].
  right. apply in_or_app. left. now apply in_map.
Qed.

Lemma finding_in_report_lines (f : Findings) (m : string) :
  In m (errors f ++ warnings f ++ info f) -> In (bullet m) (report_lines f).
Proof.
  unfold report_lines. rewrite !in_app_iff. intros [I|[I|I]].
  - left. now apply in_report_section.
  - right. left. now apply in_report_section.
  - right. right. left. now apply in_report_section.
Qed.

Lemma report_text (content : string) :
  is_blank content = false ->
  validate_pac_content content
  = Report (join nl (report_lines (run_checks content)))
      (match errors (run_checks content) with
       | [] => "VALID"
       | _ :: _ => "INVALID"
       end).
Proof.
  intros B. rewrite (validate_report content B).
  now rewrite generate_report_lines.
Qed.





(** *** Reading the report back line by line *)

Lemma count_char_nonneg (c : ascii) (s : string) : (0 <= count_char c s)%Z.
Proof.
  induction s as [|a s IH]; cbn; [lia|]. destruct (Ascii.eqb a c); lia.
Qed.

Lemma split_one (sep : ascii) (x : string) :
  count_char sep x = 0%Z -> split sep x = [x].
Proof.
  induction x as [|a x IH]; cbn [split count_char]; [reflexivity|].
  pose proof (count_char_nonneg sep x) as P.
  destruct (Ascii.eqb_spec a sep) as [->|N]; intros H; [lia|].
  rewrite IH by lia. reflexivity.
Qed.

Lemma split_append (sep : ascii) (x rest : string) :
  count_char sep x = 0%Z ->
  split sep (x ++ String sep rest) = x :: split sep rest.
Proof.
  induction x as [|a x IH]; cbn [split count_char append]; intros H.
  - now rewrite Ascii.eqb_refl.
  - pose proof (count_char_nonneg sep x) as P.
    destruct (Ascii.eqb_spec a sep) as [->|N]; [lia|].
    rewrite IH by lia. reflexivity.
Qed.

(** Splitting on the separator undoes joining with it, for items that do
    not hold it. *)
Lemma split_join (sep : ascii) (xs : list string) :
  xs <> [] ->
  (forall x, In x xs -> count_char sep x = 0%Z) ->
  split sep (join (String sep "") xs) = xs.
Proof.
  induction xs as [|x xs IH]; [congruence|]. intros _ H.
  destruct xs as [|y ys].
  - apply split_one, H. now left.
  - rewrite join_cons by discriminate. cbn [append].
    rewrite split_append by (apply H; now left).
    rewrite IH; [reflexivity | discriminate |].
    intros z I. apply H. now right.
Qed.

Lemma one_line_str_int (n : Z) : count_char newline (str_int n) = 0%Z.
Proof.
  apply (count_char_absent numeral_char); [reflexivity|].
  apply numeral_str_int.
Qed.

Lemma one_line_join (sep : string) (xs : list string) :
  count_char newline sep = 0%Z ->
  (forall x, In x xs -> count_char newline x = 0%Z) ->
  count_char newline (join sep xs) = 0%Z.
Proof.
  intros S. induction xs as [|x xs IH]; intros H; [reflexivity|].
  destruct xs as [|y ys]; [apply H; now left|].
  rewrite join_cons by discriminate. rewrite !count_char_append, S.
  rewrite (H x) by now left. rewrite IH; [reflexivity|].
  intros z I. apply H. now right.
Qed.

Lemma one_line_pac_function (func : string) :
  In func pac_functions -> count_char newline func = 0%Z.
Proof.
  unfold pac_functions. cbn [In].
  intros H; repeat destruct H as [<-|H]; try contradiction; reflexivity.
Qed.

(** Apart from the values of return statements, no finding holds a line
    feed. *)
Lemma one_line_findings (content m : string) :
  (forall ret, In ret (Re.findall false return_pattern content) ->
               count_char newline (return_value ret) = 0%Z) ->
  In m (errors (run_checks content) ++ warnings (run_checks content)
        ++ info (run_checks content)) ->
  count_char newline m = 0%Z.
Proof.
  intros V. rewrite !in_app_iff.
  assert (Values : forall v,
             In v (classified (Re.findall false return_pattern content)) ->
             count_char newline v = 0%Z).
  { intros v I. unfold classified in I. apply filter_In in I as [I _].
    apply in_map_iff in I as (ret & <- & I). now apply V. }
  intros [I|[I|I]].
  - apply in_errors in I as [I|[I|[I|I]]].
    + apply in_function_errors in I as [-> _]. reflexivity.
    + clear V Values. revert I. generalize "". induction content as [|c s IH];
        intros pre I; [destruct I|].
      cbn [closers] in I. apply in_app_or in I as [I|I]; [|eauto].
      apply closer_msg_line in I as [(_ & _ & ->)|(_ & _ & ->)];
        unfold unmatched_brace_msg, unmatched_paren_msg;
        rewrite !count_char_append, one_line_str_int; reflexivity.
    + apply in_brace_errors in I as [[_ ->]|[_ ->]]; [|reflexivity].
      unfold missing_braces_msg.
      rewrite !count_char_append, one_line_str_int. reflexivity.
    + apply in_paren_errors in I as [[_ ->]|[_ ->]]; [|reflexivity].
      unfold missing_parens_msg.
      rewrite !count_char_append, one_line_str_int. reflexivity.
  - rewrite warnings_run_checks in I. unfold returns_warnings in I.
    destruct (Re.findall false return_pattern content) as [|r rs] eqn:R.
    + destruct I as [<-|[]]. reflexivity.
    + apply in_map_iff in I as (v & <- & I). apply filter_In in I as [I _].
      unfold unusual_return_msg. rewrite !count_char_append.
      rewrite (Values v I). reflexivity.
  - rewrite info_run_checks, !in_app_iff in I. destruct I as [I|[I|I]].
    + unfold function_info in I. destruct Re.search; [|destruct I].
      destruct I as [<-|[]]. reflexivity.
    + unfold returns_info in I.
      destruct (Re.findall false return_pattern content) as [|r rs] eqn:R;
        [destruct I|].
      destruct I as [<-|I].
      * unfold found_returns_msg.
        rewrite !count_char_append, one_line_str_int. reflexivity.
      * apply in_map_iff in I as (v & <- & I). apply filter_In in I as [I _].
        unfold valid_return_msg. rewrite !count_char_append.
        rewrite (Values v I). reflexivity.
    + unfold functions_info in I.
      destruct (present content) as [|n ns] eqn:P; [destruct I|].
      destruct I as [<-|[]]. unfold pac_functions_msg.
      rewrite count_char_append. rewrite one_line_join; [reflexivity..|].
      intros x Ix. apply one_line_pac_function.
      rewrite <- P in Ix. unfold present in Ix. now apply filter_In in Ix.
Qed.

Lemma one_line_section (banner : string) (items : list string) (l : string) :
  count_char newline banner = 0%Z ->
  (forall m, In m items -> count_char newline m = 0%Z) ->
  In l (report_section banner items) -> count_char newline l = 0%Z.
Proof.
  intros Hb H I. unfold report_section in I.
  destruct items as [|x xs]; [destruct I|].
  destruct I as [<-|I]; [assumption|].
  apply in_app_or in I as [I|[<-|[]]]; [|reflexivity].
  apply in_map_iff in I as (m & <- & I). unfold bullet.
  rewrite count_char_append, (H m I). reflexivity.
Qed.



(* ================================================================= *)
(** ** Which return values are valid *)

Lemma upper_append (s t : string) : upper (s ++ t) = (upper s ++ upper t)%string.
Proof. induction s as [|a s IH]; cbn; [reflexivity | now rewrite IH]. Qed.

Lemma startswith_extend (s p rest : string) :
  startswith s p = true -> startswith (s ++ rest) p = true.
Proof.
  rewrite !startswith_spec. intros [post ->].
  exists (post ++ rest)%string. now rewrite append_assoc.
Qed.

(** X7. Validity looks at the start of the value only: whatever follows one
    of the words is accepted, with no boundary after the word, so a valid
    value stays valid when text is added to it. *)
Theorem is_valid_extension (value rest : string) :
  is_valid value = true -> is_valid (value ++ rest) = true.
Proof.
  intros V. unfold is_valid in *. apply existsb_exists in V as (p & I & S).
  apply existsb_exists. exists p. split; [assumption|].
  rewrite upper_append. now apply startswith_extend.
Qed.

Lemma is_valid_extension_witness :
  is_valid ("direct" ++ "ory listing") = true.
Proof.
  apply (is_valid_extension "direct" "ory listing"). reflexivity.
Defined.

(** X8. The word HTTPS of the list adds nothing to the word HTTP: the same
    values are valid without it. *)
Theorem https_adds_nothing (value : string) :
  is_valid value
  = existsb (fun prefix => startswith (upper value) prefix)
      ["DIRECT"; "PROXY"; "SOCKS"; "HTTP"].
Proof.
  unfold is_valid, valid_prefixes. cbn [existsb].
  destruct (startswith (upper value) "HTTPS") eqn:H; [|reflexivity].
  apply startswith_spec in H as [post H].
  assert (S : startswith (upper value) "HTTP" = true).
  { apply startswith_spec. exists (String "S" post). now rewrite H. }
  rewrite S, !orb_true_r. reflexivity.
Qed.

(* ================================================================= *)
(** ** Unpacking the result of the validation *)

(** The result for a script unpacks into its report and its status. *)
Lemma unpack2_validate (content : string) :
  is_blank content = false ->
  exists report status,
    validate_pac_content content = Report report status
    /\ unpack2 (validate_pac_content content) = inr (report, status)
    /\ (status = "VALID" \/ status = "INVALID").
Proof.
  intros B. rewrite (validate_report content B).
  eexists _, _. split; [reflexivity|]. split; [reflexivity|].
  rewrite verdict_errors. destruct (errors (run_checks content)); auto.
Qed.

(** The result for blank content, the advisory message, does not. *)
Lemma unpack2_blank (content : string) :
  is_blank content = true ->
  unpack2 (validate_pac_content content)
  = inl TooManyValues.
Proof. unfold validate_pac_content. now intros ->. Qed.

Lemma check_pac_text_blank (text : string) :
  is_blank text = true ->
  check_pac_text text = inr ("Please enter PAC file content", "NO CONTENT").
Proof. unfold check_pac_text. fold (is_blank text). now intros ->. Qed.

Lemma check_pac_text_script (text report status : string) :
  is_blank text = false ->
  validate_pac_content text = Report report status ->
  check_pac_text text = inr ((content_info text ++ report)%string, status).
Proof.
  unfold check_pac_text. fold (is_blank text). now intros -> ->.
Qed.

Lemma check_pac_file_body_blank (h : Host) (file : File) (content : string) :
  read_text h (name file) = inr content ->
  is_blank content = true ->
  check_pac_file_body h file = inl TooManyValues.
Proof.
  intros R B. unfold check_pac_file_body, bind.
  now rewrite R, (unpack2_blank content B).
Qed.

Lemma check_pac_file_body_script (h : Host) (file : File)
  (content report status : string) :
  read_text h (name file) = inr content ->
  validate_pac_content content = Report report status ->
  check_pac_file_body h file
  = inr ((file_info h file (len_str content) (len (split newline content))
          ++ report)%string, status).
Proof.
  intros R V. unfold check_pac_file_body, bind. now rewrite R, V.
Qed.

(** [text.split()] has as many items as the text has words. *)
Lemma split_ws_length (s : string) :
  List.length (split_ws s) = word_starts true s.
Proof.
  induction s as [|c s IH]; [reflexivity|].
  cbn [split_ws word_starts]. destruct (isspace c) eqn:Hc; [exact IH|].
  cbn [negb andb]. destruct s as [|d s]; [reflexivity|].
  cbn [word_starts] in *. destruct (isspace d) eqn:Hd.
  - cbn [List.length negb andb plus] in *. now rewrite IH.
  - cbn [negb andb plus] in *.
    destruct (split_ws (String d s)) as [|w ws]; [discriminate IH|].
    exact IH.
Qed.

(** [s.split(sep)] has one item more than [s] has separators. *)
Lemma split_length (sep : ascii) (s : string) :
  len (split sep s) = (1 + count_char sep s)%Z.
Proof.
  unfold len. induction s as [|c s IH]; [reflexivity|].
  cbn [split count_char]. destruct (Ascii.eqb c sep).
  - cbn [List.length]. lia.
  - destruct (split_cons sep s) as (l & ls & E). rewrite E in *.
    cbn [List.length] in *. lia.
Qed.

(* ================================================================= *)
(** ** The entry point for pasted text *)




(* ================================================================= *)
(** ** The entry point for an uploaded file *)









(* ================================================================= *)
(** ** What the bracket check looks at *)

Lemma count_char_skeleton (c : ascii) (s : string) :
  bracket_char c = true -> count_char c (skeleton s) = count_char c s.
Proof.
  intros H. induction s as [|a s IH]; [reflexivity|].
  cbn [skeleton count_char]. destruct (bracket_char a) eqn:Ha.
  - cbn [count_char]. now rewrite IH.
  - destruct (Ascii.eqb_spec a c) as [->|_]; [congruence|]. now rewrite IH.
Qed.

Lemma closer_msg_balances (pre pre' : string) (c : ascii) :
  brace_balance pre = brace_balance pre' ->
  paren_balance pre = paren_balance pre' ->
  line_after pre = line_after pre' ->
  closer_msg pre c = closer_msg pre' c.
Proof. unfold closer_msg. now intros -> -> ->. Qed.

Lemma closer_msg_other (pre : string) (c : ascii) :
  bracket_char c = false -> closer_msg pre c = [].
Proof.
  unfold bracket_char, closer_msg. intros H.
  apply orb_false_iff in H as [H _]. apply orb_false_iff in H as [H H4].
  apply orb_false_iff in H as [H H3]. apply orb_false_iff in H as [_ H2].
  now rewrite H2, H4.
Qed.

Lemma closers_skeleton (s pre pre' : string) :
  brace_balance pre = brace_balance pre' ->
  paren_balance pre = paren_balance pre' ->
  line_after pre = line_after pre' ->
  closers pre s = closers pre' (skeleton s).
Proof.
  revert pre pre'. induction s as [|c s IH]; intros pre pre' B P L;
    [reflexivity|].
  cbn [closers skeleton]. destruct (bracket_char c) eqn:Hc.
  - cbn [closers]. rewrite (closer_msg_balances pre pre' c B P L). f_equal.
    apply IH; unfold brace_balance, paren_balance, line_after in *;
      rewrite !count_char_append; lia.
  - rewrite (closer_msg_other pre c Hc). cbn [app].
    assert (Z : forall k, bracket_char k = true ->
                          count_char k (String c "") = 0%Z).
    { intros k Hk. cbn. destruct (Ascii.eqb_spec c k) as [->|_];
        [congruence | reflexivity]. }
    apply IH; unfold brace_balance, paren_balance, line_after in *;
      rewrite !count_char_append, !Z by reflexivity; lia.
Qed.

(** X2. The bracket check sees braces, parentheses and line feeds only: the
    errors it adds for a text are those it adds for the text stripped
    of every other character, be it in a string, a comment or a name. *)
Theorem check_brackets_skeleton (content : string) (f : Findings) :
  check_brackets content f = check_brackets (skeleton content) f.
Proof.
  rewrite !check_brackets_spec. unfold brace_balance, paren_balance.
  rewrite !count_char_skeleton by reflexivity.
  now rewrite (closers_skeleton content "" "").
Qed.

(* ================================================================= *)
(** ** The order of the errors of the scan *)

Lemma line_after_append (pre s : string) :
  (line_after pre <= line_after (pre ++ s))%Z.
Proof.
  unfold line_after. rewrite count_char_append.
  pose proof (count_char_nonneg newline s). lia.
Qed.

Lemma closers_from_line (s pre m : string) (i : Z) :
  In m (closers pre s) -> scan_msg m i -> (line_after pre <= i)%Z.
Proof.
  revert pre. induction s as [|c s IH]; intros pre I M; [destruct I|].
  cbn [closers] in I. apply in_app_or in I as [I|I].
  - apply closer_msg_line in I as [(_ & _ & ->)|(_ & _ & ->)];
      destruct M as [M|M].
    + apply unmatched_brace_inj in M. lia.
    + now apply unmatched_brace_not_paren in M.
    + symmetry in M. now apply unmatched_brace_not_paren in M.
    + apply unmatched_paren_inj in M. lia.
  - pose proof (line_after_append pre (String c "")).
    specialize (IH _ I M). lia.
Qed.

Lemma closer_msg_short (pre : string) (c : ascii) :
  closer_msg pre c = []
  \/ exists m, closer_msg pre c = [m] /\ scan_msg m (line_after pre).
Proof.
  unfold closer_msg, scan_msg.
  destruct (_ && _); [right; eexists; split; [reflexivity | now left]|].
  destruct (_ && _); [right; eexists; split; [reflexivity | now right]|].
  now left.
Qed.

(** X3. The scan lists its errors in the order of the text: of two of its
    messages, the one that comes first in the errors names a line that
    is not after the line of the other. *)
Theorem scan_errors_in_line_order (content : string) (f : Findings)
  (before between after : list string) (m1 m2 : string) (i j : Z) :
  errors (found (scan content f))
  = errors f ++ before ++ m1 :: between ++ m2 :: after ->
  scan_msg m1 i -> scan_msg m2 j -> (i <= j)%Z.
Proof.
  destruct (scan_spec content f) as (_ & _ & -> & _).
  intros E. apply app_inv_head in E. revert E.
  generalize "". revert before.
  induction content as [|c s IH]; intros before pre E M1 M2.
  - destruct before; discriminate.
  - cbn [closers] in E.
    destruct (closer_msg_short pre c) as [N|(m & N & M)]; rewrite N in E.
    + now apply (IH before (pre ++ String c "")%string).
    + destruct before as [|b before]; cbn [app] in E; injection E as <- E.
      * assert (I : In m2 (closers (pre ++ String c "") s)).
        { rewrite E. apply in_or_app. right. now left. }
        pose proof (closers_from_line _ _ _ _ I M2) as L2.
        pose proof (line_after_append pre (String c "")) as L.
        assert (i = line_after pre); [|lia].
        destruct M as [M|M], M1 as [M1|M1]; rewrite M in M1.
        -- now apply unmatched_brace_inj in M1.
        -- now apply unmatched_brace_not_paren in M1.
        -- symmetry in M1. now apply unmatched_brace_not_paren in M1.
        -- now apply unmatched_paren_inj in M1.
      * now apply (IH before (pre ++ String c "")%string).
Qed.

Lemma scan_errors_in_line_order_witness : (4 <= 5)%Z.
Proof.
  apply (scan_errors_in_line_order sample_lines no_findings [] [] []
           "Line 4: Unmatched closing brace"
           "Line 5: Unmatched closing parenthesis" 4 5).
  - reflexivity.
  - now left.
  - now right.
Defined.
